(** * face_detection.py: a shallow embedding and its verified properties

    The program is a capture / detect / draw / display loop around two
    external libraries (OpenCV and face_recognition).  Pure array
    manipulations (flip, channel reversal, [np.ones], [np.hstack]) are
    embedded as functions on lists of pixel rows.  Every call that leaves
    the program (camera, detector, drawing primitives, window system,
    console) is a [call] answered by an environment, and a run of the
    program yields the chronological list of calls it made together with
    their answers. *)

From Stdlib Require Import String ZArith List Bool Lia QArith.
Import ListNotations.
Local Open Scope string_scope.
Local Open Scope list_scope.
Local Open Scope Z_scope.

(** ** Data model *)

(** A pixel, and an OpenCV colour scalar: three channel values.  Frames
    coming out of OpenCV are in blue-green-red order. *)
Definition Color := (Z * Z * Z)%type.

(** A pixel position [(x, y)]. *)
Definition Point := (Z * Z)%type.

(** A numpy array of shape [(h, w, 3)]: [h] rows of [w] pixels. *)
Definition Frame := list (list Color).

(** A face location as face_recognition returns it:
    [(top, right, bottom, left)]. *)
Definition FaceBox := (Z * Z * Z * Z)%type.

(** A Python dict whose iteration order is its insertion order. *)
Definition dict (V : Type) := list (string * V).

(** One face's landmarks: feature name to its points. *)
Definition LandmarkSet := dict (list Point).

(** [d.get(k, default)] *)
Fixpoint dict_get {V : Type} (d : dict V) (k : string) (default : V) : V :=
  match d with
  | [] => default
  | (k', v) :: d' => if String.eqb k k' then v else dict_get d' k default
  end.

(** [k in d] *)
Definition dict_mem {V : Type} (d : dict V) (k : string) : bool :=
  existsb (fun kv => String.eqb k (fst kv)) d.

(** Lines 6-16. *)
Definition FEATURE_COLORS : dict Color :=
  [ ("chin",          (255, 0, 0));
    ("left_eyebrow",  (0, 255, 0));
    ("right_eyebrow", (0, 255, 255));
    ("nose_bridge",   (255, 255, 0));
    ("nose_tip",      (255, 0, 255));
    ("left_eye",      (0, 0, 255));
    ("right_eye",     (255, 128, 0));
    ("top_lip",       (128, 0, 128));
    ("bottom_lip",    (0, 128, 128)) ].

(** ** Array operations *)

(** A frame is a well-formed [h] x [w] array. *)
Definition has_shape (h w : nat) (f : Frame) : Prop :=
  length f = h /\ Forall (fun row => length row = w) f.

(** [frame.shape[:2]], read off the rows. *)
Definition shape2 (f : Frame) : Z * Z :=
  (Z.of_nat (length f),
   Z.of_nat (match f with [] => 0%nat | row :: _ => length row end)).

(** [cv2.flip(src, flipCode)]: [0] flips around the x-axis, a positive
    code around the y-axis, a negative code around both. *)
Definition cv2_flip (src : Frame) (flipCode : Z) : Frame :=
  if flipCode =? 0 then rev src
  else if 0 <? flipCode then map (@rev Color) src
  else rev (map (@rev Color) src).

(** [frame[:, :, ::-1]]: every pixel's channels in reverse order. *)
Definition reverse_channels (f : Frame) : Frame :=
  map (map (fun p : Color => let '(c0, c1, c2) := p in (c2, c1, c0))) f.

(** [np.ones((h, w, 3), dtype=np.uint8)] *)
Definition np_ones (h w : nat) : Frame := repeat (repeat (1, 1, 1) w) h.

(** Multiplication of a [uint8] array by a scalar, wrapping at 256. *)
Definition uint8_scale (k : Z) (f : Frame) : Frame :=
  map (map (fun p : Color =>
              let '(c0, c1, c2) := p in
              ((c0 * k) mod 256, (c1 * k) mod 256, (c2 * k) mod 256))) f.

(** Row-wise concatenation of two arrays of equal height. *)
Fixpoint hstack_rows (a b : Frame) : Frame :=
  match a, b with
  | ra :: a', rb :: b' => (ra ++ rb) :: hstack_rows a' b'
  | _, _ => []
  end.

(** [np.hstack((a, b))]: numpy refuses arrays of different heights. *)
Definition np_hstack (a b : Frame) : option Frame :=
  if Nat.eqb (length a) (length b) then Some (hstack_rows a b) else None.

(** Lines 82-87: the padded, clamped corners of one face box on a frame
    of height [h] and width [w], as [(left, top, right, bottom)].  The
    source rebinds [left], [top], [right] and [bottom]; the rebound values
    carry a prime here. *)
Definition expand_box (h w : Z) (box : FaceBox) : Z * Z * Z * Z :=
  let '(top, right_, bottom, left_) := box in
  let padding := 20 in
  let left' := Z.max 0 (left_ - padding) in
  let top' := Z.max 0 (top - padding) in
  let right' := Z.min w (right_ + padding) in
  let bottom' := Z.min h (bottom + padding) in
  (left', top', right', bottom').

(** ** The outside world

    Calls into OpenCV, face_recognition and the console.  The index of a
    call is the type of its answer.  A drawing primitive mutates its array
    argument in place and returns it: its answer is the content of that
    array after the call.  [Read] answers [None] for [(False, None)] and
    [Some frame] for [(True, frame)]. *)

Definition FONT_HERSHEY_SIMPLEX : Z := 0.

Inductive call : Type -> Type :=
| VideoCapture (index : Z) : call unit
| IsOpened : call bool
| Print (text : string) : call unit
| Read : call (option Frame)
| FaceLocations (img : Frame) : call (list FaceBox)
| FaceLandmarks (img : Frame) : call (list LandmarkSet)
| Rectangle (img : Frame) (pt1 pt2 : Point) (color : Color) (thickness : Z)
  : call Frame
| Circle (img : Frame) (center : Point) (radius : Z) (color : Color)
         (thickness : Z) : call Frame
| PutText (img : Frame) (text : string) (org : Point) (fontFace : Z)
          (fontScale : Q) (color : Color) (thickness : Z) : call Frame
| Imshow (winname : string) (mat : Frame) : call unit
| WaitKey (delay : Z) : call Z
| Release : call unit
| DestroyAllWindows : call unit.

(** A Python exception, by the name of its class. *)
Inductive exn := PyError (class_name : string).

(** What became of a computation: it returned, it raised, or it has not
    come back (a loop that is still turning, a call that blocks). *)
Inductive outcome (A : Type) :=
| Ok (a : A)
| Raise (e : exn)
| Running.
Arguments Ok {A} a.
Arguments Raise {A} e.
Arguments Running {A}.

(** One call together with its answer. *)
Inductive event := Ev : forall T : Type, call T -> outcome T -> event.
Arguments Ev {T} c r.

(** Events in the order they happened. *)
Definition trace := list event.

(** The world answers a call knowing everything that happened before. *)
Definition world := forall T : Type, trace -> call T -> outcome T.

(** ** Programs

    A program is run after a history; it yields its outcome and the
    events it added (oldest first). *)
Definition M (A : Type) := trace -> outcome A * trace.

Definition ret {A : Type} (a : A) : M A := fun _ => (Ok a, []).

Definition raise {A : Type} (e : exn) : M A := fun _ => (Raise e, []).

Definition bind {A B : Type} (m : M A) (f : A -> M B) : M B :=
  fun h =>
    match m h with
    | (Ok a, t1) => let (r, t2) := f a (h ++ t1) in (r, t1 ++ t2)
    | (Raise e, t1) => (Raise e, t1)
    | (Running, t1) => (Running, t1)
    end.

Notation "x <- m ;; k" := (bind m (fun x => k))
  (at level 61, m at next level, right associativity).
Notation "m ;;; k" := (bind m (fun _ => k))
  (at level 61, right associativity).

(** [try: body finally: fin].  The [finally] suite runs when the body
    returned or raised; an exception of the suite replaces the body's. *)
Definition try_finally {A : Type} (body : M A) (fin : M unit) : M A :=
  fun h =>
    match body h with
    | (Running, t1) => (Running, t1)
    | (r, t1) =>
        match fin (h ++ t1) with
        | (Ok _, t2) => (r, t1 ++ t2)
        | (Raise e, t2) => (Raise e, t1 ++ t2)
        | (Running, t2) => (Running, t1 ++ t2)
        end
    end.

(** [for x in xs: s = body(x, s)], the state [s] being what the loop
    mutates. *)
Fixpoint for_each {A S : Type} (xs : list A) (body : A -> S -> M S) (s : S)
  : M S :=
  match xs with
  | [] => ret s
  | x :: xs' => s' <- body x s ;; for_each xs' body s'
  end.

(** How one turn of [while True] ends: [continue] or falling off the end
    of the body, or [break]. *)
Inductive ctrl := Next | Break.

(** [while True: body], for at most [fuel] turns. *)
Fixpoint while_true (fuel : nat) (body : M ctrl) : M unit :=
  match fuel with
  | O => fun _ => (Running, [])
  | S fuel' =>
      c <- body ;;
      match c with
      | Break => ret tt
      | Next => while_true fuel' body
      end
  end.

Section Program.

Variable env : world.

Definition perform {T : Type} (c : call T) : M T :=
  fun h => (env T h c, [Ev c (env T h c)]).

(** Lines 18-27. *)
Definition draw_face_landmarks (image : Frame)
           (face_landmarks_list : list LandmarkSet) : M Frame :=
  for_each face_landmarks_list (fun landmarks image =>
    for_each landmarks (fun '(feature, points) image =>
      let color := dict_get FEATURE_COLORS feature (200, 200, 200) in
      for_each points (fun point image =>
        perform (Circle image point 2 color (-1))) image) image) image.

(** Lines 34-45: the panel and its entries. *)
Definition legend_width : nat := 200.

Definition legend_entry (entry : string * Color) (st : Frame * Z)
  : M (Frame * Z) :=
  let '(feature, color) := entry in
  let '(legend_panel, y_offset) := st in
  legend_panel <- perform (Circle legend_panel (20, y_offset - 5) 6 color
                                  (-1)) ;;
  legend_panel <- perform (PutText legend_panel feature (40, y_offset)
                                   FONT_HERSHEY_SIMPLEX (1 # 2)%Q color 1) ;;
  ret (legend_panel, y_offset + 30).

Definition build_legend (frame : Frame) : M Frame :=
  let height := length frame in
  let legend_panel := uint8_scale 30 (np_ones height legend_width) in
  let y_offset := 30 in
  st <- for_each FEATURE_COLORS legend_entry (legend_panel, y_offset) ;;
  ret (fst st).

(** Lines 29-49. *)
Definition add_legend_panel (frame : Frame) : M Frame :=
  legend_panel <- build_legend frame ;;
  match np_hstack legend_panel frame with
  | Some combined => ret combined
  | None => raise (PyError "ValueError")
  end.

(** Lines 81-90: the body of the loop over the face locations. *)
Definition draw_box (box : FaceBox) (frame : Frame) : M Frame :=
  let '(h, w) := shape2 frame in
  let '(left', top', right', bottom') := expand_box h w box in
  perform (Rectangle frame (left', top') (right', bottom') (0, 150, 0) 2).

(** Lines 80-90. *)
Definition draw_boxes (frame : Frame) (face_locations : list FaceBox)
  : M Frame :=
  for_each face_locations draw_box frame.

Definition window_title : string :=
  "Face Detection with Landmarks & Legend".

(** Lines 65-103: one turn of the loop.  [rgb_frame] is a view of the
    mirrored frame, not a copy; it is handed to the detectors before
    anything is drawn on the frame and is not used afterwards. *)
Definition loop_body : M ctrl :=
  captured <- perform Read ;;
  match captured with
  | None =>
      perform (Print "Warning: Failed to capture frame.") ;;;
      ret Next
  | Some frame =>
      let frame := cv2_flip frame 1 in
      let rgb_frame := reverse_channels frame in
      face_locations <- perform (FaceLocations rgb_frame) ;;
      face_landmarks_list <- perform (FaceLandmarks rgb_frame) ;;
      frame <- draw_boxes frame face_locations ;;
      frame <- draw_face_landmarks frame face_landmarks_list ;;
      output_frame <- add_legend_panel frame ;;
      perform (Imshow window_title output_frame) ;;;
      key <- perform (WaitKey 1) ;;
      if 0 <? key then ret Break else ret Next
  end.

(** Lines 105-108. *)
Definition cleanup : M unit :=
  perform Release ;;;
  perform DestroyAllWindows.

(** Lines 51-108, the loop running for at most [fuel] turns. *)
Definition main (fuel : nat) : M unit :=
  perform (VideoCapture 0) ;;;
  opened <- perform IsOpened ;;
  if negb opened then
    perform (Print "Error: Cannot access camera.")
  else
    try_finally (while_true fuel loop_body) cleanup.

End Program.

(** Lines 110-111: the status the process ends with once [main()] is
    over; none while it runs.  An uncaught exception ends the interpreter
    with status 1, except [KeyboardInterrupt], on which it dies by SIGINT
    (reported as 130), and [SystemExit], whose status is the code it
    carries, which exceptions here do not record. *)
Definition exit_status (r : outcome unit) : option Z :=
  match r with
  | Ok _ => Some 0
  | Raise (PyError class_name) =>
      if String.eqb class_name "KeyboardInterrupt" then Some 130
      else if String.eqb class_name "SystemExit" then None
      else Some 1
  | Running => None
  end.

(** ** Reading traces *)

(** What a drawing call asks for, apart from the array it draws on. *)
Inductive mark :=
| Outline (pt1 pt2 : Point) (color : Color) (thickness : Z)
| Disc (center : Point) (radius : Z) (color : Color) (thickness : Z)
| Label (text : string) (org : Point) (fontFace : Z) (fontScale : Q)
        (color : Color) (thickness : Z).

Definition mark_of_call {T : Type} (c : call T) : option mark :=
  match c with
  | Rectangle _ pt1 pt2 color thickness =>
      Some (Outline pt1 pt2 color thickness)
  | Circle _ center radius color thickness =>
      Some (Disc center radius color thickness)
  | PutText _ text org fontFace fontScale color thickness =>
      Some (Label text org fontFace fontScale color thickness)
  | _ => None
  end.

Definition mark_of (e : event) : option mark :=
  match e with Ev c _ => mark_of_call c end.

(** The array a drawing call draws on. *)
Definition canvas_of (e : event) : option Frame :=
  match e with
  | Ev c _ =>
      match c with
      | Rectangle img _ _ _ _ => Some img
      | Circle img _ _ _ _ => Some img
      | PutText img _ _ _ _ _ _ => Some img
      | _ => None
      end
  end.

Definition is_cleanup (e : event) : bool :=
  match e with
  | Ev c _ =>
      match c with
      | Release => true
      | DestroyAllWindows => true
      | _ => false
      end
  end.

Definition is_read (e : event) : bool :=
  match e with
  | Ev c _ => match c with Read => true | _ => false end
  end.

(** Two arrays with rows of the same lengths. *)
Definition same_shape (a b : Frame) : Prop :=
  map (@length Color) a = map (@length Color) b.

(** The array a drawing call has returned. *)
Definition drawn_of_call {T : Type} (c : call T) : outcome T -> option Frame :=
  match c in call T return outcome T -> option Frame with
  | Rectangle _ _ _ _ _ | Circle _ _ _ _ _ | PutText _ _ _ _ _ _ _ =>
      fun r => match r with Ok img' => Some img' | _ => None end
  | _ => fun _ => None
  end.

Definition drawn_of (e : event) : option Frame :=
  match e with Ev c r => drawn_of_call c r end.

(** Drawing primitives work in place: when one returns, the array has the
    shape it had. *)
Definition draws_in_place (env : world) : Prop :=
  forall (T : Type) (h : trace) (c : call T) (img img' : Frame),
    canvas_of (Ev c (env T h c)) = Some img ->
    drawn_of (Ev c (env T h c)) = Some img' ->
    same_shape img img'.

(** Drawing primitives return. *)
Definition draws_return (env : world) : Prop :=
  forall (T : Type) (h : trace) (c : call T),
    mark_of_call c <> None ->
    exists img', drawn_of (Ev c (env T h c)) = Some img'.

(** Releasing the camera and closing the windows return. *)
Definition cleanup_returns (env : world) : Prop :=
  forall h : trace,
    env unit h Release = Ok tt /\ env unit h DestroyAllWindows = Ok tt.

(** A face box inside an [h] x [w] frame. *)
Definition box_within (h w : Z) (box : FaceBox) : Prop :=
  let '(top, right_, bottom, left_) := box in
  0 <= left_ <= right_ /\ right_ <= w /\ 0 <= top <= bottom /\ bottom <= h.

(** The events of a capture that failed. *)
Definition failed_capture (r : outcome unit) : trace :=
  [Ev Read (Ok None); Ev (Print "Warning: Failed to capture frame.") r].

Fixpoint failed_captures (n : nat) : trace :=
  match n with
  | O => []
  | S n' => failed_capture (Ok tt) ++ failed_captures n'
  end.

(** ** A world to run the program in

    A scripted camera and detector, a console and a window system that
    never fail, and a naive rasteriser.  A key is pressed while the
    capture number [quit_at] is on display; reading past the script is
    interrupted. *)

Fixpoint mapi_from {A B : Type} (i : Z) (f : Z -> A -> B) (l : list A)
  : list B :=
  match l with
  | [] => []
  | a :: l' => f i a :: mapi_from (i + 1) f l'
  end.

Definition paint (inside : Z -> Z -> bool) (color : Color) (img : Frame)
  : Frame :=
  mapi_from 0
    (fun y row => mapi_from 0 (fun x p => if inside x y then color else p) row)
    img.

Definition in_disc (center : Point) (radius x y : Z) : bool :=
  (x - fst center) * (x - fst center) + (y - snd center) * (y - snd center)
  <=? radius * radius.

Definition on_outline (pt1 pt2 : Point) (x y : Z) : bool :=
  ((fst pt1 <=? x) && (x <=? fst pt2) && (snd pt1 <=? y) && (y <=? snd pt2))
  && ((x =? fst pt1) || (x =? fst pt2) || (y =? snd pt1) || (y =? snd pt2)).

Record scenario := {
  camera_opens : bool;
  captures : list (option Frame);
  faces : list FaceBox;
  landmarks : list LandmarkSet;
  quit_at : nat
}.

Definition reads_before (h : trace) : nat := length (filter is_read h).

Definition sample_world (sc : scenario) : world :=
  fun T h c =>
    match c in call T return outcome T with
    | VideoCapture _ => Ok tt
    | IsOpened => Ok (camera_opens sc)
    | Print _ => Ok tt
    | Read =>
        match nth_error (captures sc) (reads_before h) with
        | Some r => Ok r
        | None => Raise (PyError "KeyboardInterrupt")
        end
    | FaceLocations _ => Ok (faces sc)
    | FaceLandmarks _ => Ok (landmarks sc)
    | Rectangle img pt1 pt2 color _ => Ok (paint (on_outline pt1 pt2) color img)
    | Circle img center radius color _ =>
        Ok (paint (in_disc center radius) color img)
    | PutText img _ _ _ _ _ _ => Ok img
    | Imshow _ _ => Ok tt
    | WaitKey _ => Ok (if Nat.eqb (reads_before h) (quit_at sc) then 113 else -1)
    | Release => Ok tt
    | DestroyAllWindows => Ok tt
    end.

Definition black (h w : nat) : Frame := repeat (repeat (0, 0, 0) w) h.

(** No camera to open. *)
Definition no_camera : scenario :=
  {| camera_opens := false; captures := []; faces := []; landmarks := [];
     quit_at := 0 |}.

(** One face in front of a camera that misses its second capture; a key
    is pressed while the third is shown. *)
Definition one_face : scenario :=
  {| camera_opens := true;
     captures := [Some (black 4 6); None; Some (black 4 6)];
     faces := [(1, 4, 3, 2)];
     landmarks := [[("left_eye", [(2, 2); (3, 2)]); ("forehead", [(3, 1)])]];
     quit_at := 3 |}.

(** A camera that delivers nothing. *)
Definition blind_camera : scenario :=
  {| camera_opens := true; captures := [None; None; None]; faces := [];
     landmarks := []; quit_at := 0 |}.

(** Nobody in front of the camera, nobody at the keyboard. *)
Definition empty_room : scenario :=
  {| camera_opens := true; captures := [Some (black 4 6)]; faces := [];
     landmarks := []; quit_at := 0 |}.

(** Every event a program can add satisfies [P]. *)
Definition emits {A : Type} (P : event -> Prop) (m : M A) : Prop :=
  forall h : trace, Forall P (snd (m h)).

(** The camera keeps failing for [n] captures in a row after [h], the
    console taking the warning each time. *)
Definition keeps_failing (env : world) (h : trace) (n : nat) : Prop :=
  forall k : nat, (k < n)%nat ->
    env _ (h ++ failed_captures k) Read = Ok None /\
    env _ ((h ++ failed_captures k) ++ [Ev Read (Ok None)])
        (Print "Warning: Failed to capture frame.") = Ok tt.

(** The process ends with a status other than zero. *)
Definition signals_failure (r : outcome unit) : Prop :=
  exists code : Z, exit_status r = Some code /\ code <> 0.


(** The rectangle [(l, t)-(r, b)] lies in an [h] x [w] frame. *)
Definition corners_within (h w l t r b : Z) : Prop :=
  0 <= l <= r /\ r <= w /\ 0 <= t <= b /\ b <= h.

(** The circles [draw_face_landmarks] is to draw, in order. *)
Definition landmark_discs (face_landmarks_list : list LandmarkSet)
  : list mark :=
  flat_map (fun landmarks : LandmarkSet =>
    flat_map (fun group : string * list Point =>
      map (fun point =>
             Disc point 2 (dict_get FEATURE_COLORS (fst group) (200, 200, 200))
                  (-1))
          (snd group))
      landmarks)
    face_landmarks_list.

(** The calls [build_legend] is to make for the entries of a table, the
    first row being at [y_offset]. *)
Fixpoint legend_marks (entries : dict Color) (y_offset : Z) : list mark :=
  match entries with
  | [] => []
  | (feature, color) :: entries' =>
      Disc (20, y_offset - 5) 6 color (-1)
      :: Label feature (40, y_offset) FONT_HERSHEY_SIMPLEX (1 # 2)%Q color 1
      :: legend_marks entries' (y_offset + 30)
  end.

(** The rectangle call made for one face box on a frame of shape
    [(h, w)]. *)
Definition box_outline (shape : Z * Z) (box : FaceBox) : mark :=
  let '(h, w) := shape in
  let '(l, t, r, b) := expand_box h w box in
  Outline (l, t) (r, b) (0, 150, 0) 2.

(** How many landmark points a list of landmark sets holds. *)
Definition total_points (face_landmarks_list : list LandmarkSet) : nat :=
  list_sum (map (fun landmarks : LandmarkSet =>
                   list_sum (map (fun group : string * list Point =>
                                    length (snd group)) landmarks))
                face_landmarks_list).

(** A filled circle lies entirely on an [h] x [w] array. *)
Definition disc_on_panel (h w : Z) (m : mark) : Prop :=
  match m with
  | Disc (cx, cy) radius _ _ =>
      0 <= cx - radius /\ cx + radius < w /\
      0 <= cy - radius /\ cy + radius < h
  | _ => True
  end.

(** The drawing calls of [t] work on one array in turn: the first draws
    on [img], each next one on what the one before returned, and the last
    returns [img']. *)
Fixpoint chained (img : Frame) (t : trace) (img' : Frame) : Prop :=
  match t with
  | [] => img' = img
  | e :: t' =>
      canvas_of e = Some img /\
      exists mid, drawn_of e = Some mid /\ chained mid t' img'
  end.

Definition is_release (e : event) : bool :=
  match e with
  | Ev c _ => match c with Release => true | _ => false end
  end.

Definition is_label (e : event) : bool :=
  match mark_of e with
  | Some (Label _ _ _ _ _ _) => true
  | _ => false
  end.

(** The world [w] with the calls picked by [broken] raising instead. *)
Definition breaks_on (broken : event -> bool) (w : world) : world :=
  fun T h c =>
    if broken (Ev c (w T h c)) then Raise (PyError "cv2.error")
    else w T h c.

(** The exception a call ended with, if it raised. *)
Definition raised_of (e : event) : option exn :=
  match e with
  | Ev _ (Raise x) => Some x
  | _ => None
  end.

Definition is_video_capture (e : event) : bool :=
  match e with
  | Ev c _ => match c with VideoCapture _ => true | _ => false end
  end.

(** What a computation returned, [default] when it did not return. *)
Definition returned_or {A : Type} (r : outcome A) (default : A) : A :=
  match r with
  | Ok a => a
  | _ => default
  end.

(** * Properties *)

(** ** Running programs *)

Lemma bind_ok {A B : Type} (m : M A) (f : A -> M B) h a t1 :
  m h = (Ok a, t1) ->
  bind m f h = (fst (f a (h ++ t1)), t1 ++ snd (f a (h ++ t1))).
Proof.
  intros E. unfold bind. rewrite E. now destruct (f a (h ++ t1)).
Qed.

Lemma bind_inv_ok {A B : Type} (m : M A) (f : A -> M B) h b t :
  bind m f h = (Ok b, t) ->
  exists a t1 t2,
    m h = (Ok a, t1) /\ f a (h ++ t1) = (Ok b, t2) /\ t = t1 ++ t2.
Proof.
  unfold bind. destruct (m h) as [[a|e|] t1]; try discriminate.
  destruct (f a (h ++ t1)) as [r t2] eqn:E. intros [= -> <-].
  now exists a, t1, t2.
Qed.

Lemma bind_trace_prefix {A B : Type} (m : M A) (f : A -> M B) h :
  exists rest, snd (bind m f h) = snd (m h) ++ rest.
Proof.
  unfold bind. destruct (m h) as [[a|e|] t1]; simpl.
  - destruct (f a (h ++ t1)) as [r t2]. now exists t2.
  - exists []. now rewrite app_nil_r.
  - exists []. now rewrite app_nil_r.
Qed.

Lemma emits_ret {A : Type} (P : event -> Prop) (a : A) : emits P (ret a).
Proof. intros h. constructor. Qed.

Lemma emits_raise {A : Type} (P : event -> Prop) (e : exn) :
  emits P (@raise A e).
Proof. intros h. constructor. Qed.

Lemma emits_bind {A B : Type} (P : event -> Prop) (m : M A) (f : A -> M B) :
  emits P m -> (forall a, emits P (f a)) -> emits P (bind m f).
Proof.
  intros Hm Hf h. specialize (Hm h). unfold bind.
  destruct (m h) as [[a|e|] t1]; simpl in *; auto.
  specialize (Hf a (h ++ t1)). destruct (f a (h ++ t1)) as [r t2]; simpl in *.
  apply Forall_app; auto.
Qed.

Lemma emits_perform (env : world) (P : event -> Prop) {T : Type} (c : call T) :
  (forall r, P (Ev c r)) -> emits P (perform env c).
Proof. intros H h. simpl. constructor; auto. Qed.

Lemma emits_for_each {A S : Type} (P : event -> Prop) (xs : list A)
      (body : A -> S -> M S) :
  (forall x s, emits P (body x s)) -> forall s, emits P (for_each xs body s).
Proof.
  intros Hb. induction xs as [|x xs IH]; intros s; simpl.
  - apply emits_ret.
  - apply emits_bind; auto.
Qed.

Lemma emits_while_true (P : event -> Prop) (body : M ctrl) (fuel : nat) :
  emits P body -> emits P (while_true fuel body).
Proof.
  intros Hb. induction fuel as [|fuel IH]; simpl.
  - intros h. constructor.
  - apply emits_bind; auto. intros [|]; auto using emits_ret.
Qed.

Lemma for_each_marks {A S : Type} (g : A -> list mark) (body : A -> S -> M S) :
  (forall x s h s' t,
      body x s h = (Ok s', t) -> map mark_of t = map Some (g x)) ->
  forall xs s h s' t,
    for_each xs body s h = (Ok s', t) ->
    map mark_of t = map Some (flat_map g xs).
Proof.
  intros Hb. induction xs as [|x xs IH]; intros s h s' t; simpl.
  - now intros [= _ <-].
  - intros E. apply bind_inv_ok in E as (s1 & t1 & t2 & E1 & E2 & ->).
    rewrite !map_app. f_equal; eauto.
Qed.

Lemma for_each_returns {A S : Type} (body : A -> S -> M S) :
  (forall x s h, exists s' t, body x s h = (Ok s', t)) ->
  forall xs s h, exists s' t, for_each xs body s h = (Ok s', t).
Proof.
  intros Hb. induction xs as [|x xs IH]; intros s h; simpl.
  - now exists s, [].
  - destruct (Hb x s h) as (s1 & t1 & E1).
    destruct (IH s1 (h ++ t1)) as (s2 & t2 & E2).
    rewrite (bind_ok _ _ _ _ _ E1), E2. simpl. eauto.
Qed.

Lemma in_place_rectangle (env : world) h img pt1 pt2 color thickness img' :
  draws_in_place env ->
  env Frame h (Rectangle img pt1 pt2 color thickness) = Ok img' ->
  same_shape img img'.
Proof.
  intros Hip E. apply (Hip Frame h (Rectangle img pt1 pt2 color thickness));
    simpl; [reflexivity | now rewrite E].
Qed.

Lemma in_place_circle (env : world) h img center radius color thickness img' :
  draws_in_place env ->
  env Frame h (Circle img center radius color thickness) = Ok img' ->
  same_shape img img'.
Proof.
  intros Hip E. apply (Hip Frame h (Circle img center radius color thickness));
    simpl; [reflexivity | now rewrite E].
Qed.

Lemma in_place_put_text (env : world) h img text org face scale color
      thickness img' :
  draws_in_place env ->
  env Frame h (PutText img text org face scale color thickness) = Ok img' ->
  same_shape img img'.
Proof.
  intros Hip E.
  apply (Hip Frame h (PutText img text org face scale color thickness));
    simpl; [reflexivity | now rewrite E].
Qed.

Lemma circle_returns (env : world) h img center radius color thickness :
  draws_return env ->
  exists img', env Frame h (Circle img center radius color thickness) = Ok img'.
Proof.
  intros Hr.
  destruct (Hr Frame h (Circle img center radius color thickness))
    as [img' H]; [discriminate|]. simpl in H.
  destruct (env Frame h _) as [a| |]; try discriminate. now exists a.
Qed.

Lemma put_text_returns (env : world) h img text org face scale color thickness :
  draws_return env ->
  exists img',
    env Frame h (PutText img text org face scale color thickness) = Ok img'.
Proof.
  intros Hr.
  destruct (Hr Frame h (PutText img text org face scale color thickness))
    as [img' H]; [discriminate|]. simpl in H.
  destruct (env Frame h _) as [a| |]; try discriminate. now exists a.
Qed.

(** ** Face boxes *)

Lemma expand_box_bounds (h w : Z) (box : FaceBox) :
  box_within h w box ->
  let '(l, t, r, b) := expand_box h w box in corners_within h w l t r b.
Proof.
  destruct box as [[[top right_] bottom] left_].
  unfold box_within, expand_box, corners_within. lia.
Qed.

Lemma same_shape_shape2 (a b : Frame) :
  same_shape a b -> shape2 a = shape2 b.
Proof.
  unfold same_shape, shape2. intros E.
  assert (L : length a = length b)
    by (rewrite <- (length_map (@length Color) a), E; apply length_map).
  rewrite L. destruct a, b; simpl in *; congruence.
Qed.

Lemma draw_box_run (env : world) (box : FaceBox) (frame : Frame) (hist : trace)
      (h w : Z) :
  shape2 frame = (h, w) ->
  box_within h w box ->
  exists l t r b,
    corners_within h w l t r b /\
    draw_box env box frame hist =
      (env _ hist (Rectangle frame (l, t) (r, b) (0, 150, 0) 2),
       [Ev (Rectangle frame (l, t) (r, b) (0, 150, 0) 2)
           (env _ hist (Rectangle frame (l, t) (r, b) (0, 150, 0) 2))]).
Proof.
  intros Hs Hb. unfold draw_box. rewrite Hs.
  pose proof (expand_box_bounds h w box Hb) as B.
  destruct (expand_box h w box) as [[[l t] r] b].
  exists l, t, r, b. split; [exact B | reflexivity].
Qed.

Lemma draw_boxes_within (env : world) (h w : Z) :
  draws_in_place env ->
  forall boxes frame hist,
    shape2 frame = (h, w) ->
    Forall (box_within h w) boxes ->
    Forall (fun e => exists l t r b,
                mark_of e = Some (Outline (l, t) (r, b) (0, 150, 0) 2) /\
                corners_within h w l t r b)
           (snd (draw_boxes env frame boxes hist)).
Proof.
  intros Hip. unfold draw_boxes.
  induction boxes as [|box boxes IH]; intros frame hist Hs Hall; simpl.
  - constructor.
  - inversion Hall as [|? ? Hb Hall']; subst.
    destruct (draw_box_run env box frame hist h w Hs Hb)
      as (l & t & r & b & Hc & E).
    unfold bind. rewrite E.
    assert (Hev : exists l0 t0 r0 b0,
               mark_of (Ev (Rectangle frame (l, t) (r, b) (0, 150, 0) 2)
                           (env _ hist (Rectangle frame (l, t) (r, b) (0, 150, 0) 2)))
               = Some (Outline (l0, t0) (r0, b0) (0, 150, 0) 2) /\
               corners_within h w l0 t0 r0 b0)
      by (exists l, t, r, b; split; [reflexivity | exact Hc]).
    destruct (env _ hist (Rectangle frame (l, t) (r, b) (0, 150, 0) 2))
      as [img'| |] eqn:Er; simpl.
    + assert (Hs' : shape2 img' = (h, w)).
      { rewrite <- Hs. symmetry. apply same_shape_shape2.
        eapply in_place_rectangle; eauto. }
      specialize (IH img' (hist ++ [Ev (Rectangle frame (l, t) (r, b) (0, 150, 0) 2) (Ok img')]) Hs' Hall').
      destruct (for_each boxes (draw_box env) img' _) as [r2 t2]; simpl in *.
      constructor; assumption.
    + constructor; [assumption | constructor].
    + constructor; [assumption | constructor].
Qed.

(** C1: the rectangle handed to [cv2.rectangle] for a face box that lies
    within the frame satisfies [0 <= left <= right <= w] and
    [0 <= top <= bottom <= h]: for one box on a frame of height [h] and
    width [w] the only call made is that rectangle, in colour (0,150,0) and
    thickness 2, and, drawing being in place, the same holds of every call
    made for a whole list of boxes. *)
Theorem C1_padded_box_within_frame (env : world) (hist : trace)
        (frame : Frame) (h w : Z) (box : FaceBox) (boxes : list FaceBox) :
  shape2 frame = (h, w) ->
  box_within h w box ->
  (exists l t r b,
      corners_within h w l t r b /\
      snd (draw_box env box frame hist) =
        [Ev (Rectangle frame (l, t) (r, b) (0, 150, 0) 2)
            (env _ hist (Rectangle frame (l, t) (r, b) (0, 150, 0) 2))]) /\
  (draws_in_place env ->
   Forall (box_within h w) boxes ->
   Forall (fun e => exists l t r b,
               mark_of e = Some (Outline (l, t) (r, b) (0, 150, 0) 2) /\
               corners_within h w l t r b)
          (snd (draw_boxes env frame boxes hist))).
Proof.
  intros Hs Hb. split.
  - destruct (draw_box_run env box frame hist h w Hs Hb)
      as (l & t & r & b & Hc & E).
    exists l, t, r, b. split; [exact Hc|]. now rewrite E.
  - intros Hip Hall. now apply draw_boxes_within.
Qed.

(** ** Mirroring *)

(** C9: flipping a frame horizontally twice gives the frame back. *)
Theorem C9_horizontal_flip_involutive (f : Frame) :
  cv2_flip (cv2_flip f 1) 1 = f.
Proof.
  unfold cv2_flip; simpl.
  induction f as [|row f IH]; simpl; [reflexivity|].
  now rewrite rev_involutive, IH.
Qed.

(** ** Landmarks *)

Lemma perform_inv (env : world) {T : Type} (c : call T) h r t :
  perform env c h = (r, t) -> r = env T h c /\ t = [Ev c r].
Proof. unfold perform. intros [= <- <-]. auto. Qed.



Lemma flat_map_singleton {A B : Type} (f : A -> B) (l : list A) :
  flat_map (fun x => [f x]) l = map f l.
Proof. induction l as [|x l IH]; simpl; congruence. Qed.

Lemma draw_face_landmarks_marks (env : world) image lms hist image' t :
  draw_face_landmarks env image lms hist = (Ok image', t) ->
  map mark_of t = map Some (landmark_discs lms).
Proof.
  unfold draw_face_landmarks, landmark_discs.
  apply for_each_marks. clear. intros landmarks.
  apply for_each_marks. intros [feature points]. cbn [fst snd].
  rewrite <- (flat_map_singleton
                (fun point => Disc point 2
                   (dict_get FEATURE_COLORS feature (200, 200, 200)) (-1))).
  apply for_each_marks. intros point s h s' t E.
  apply perform_inv in E as [_ ->]. reflexivity.
Qed.


Lemma draw_face_landmarks_returns (env : world) image lms hist :
  draws_return env ->
  exists image' t, draw_face_landmarks env image lms hist = (Ok image', t).
Proof.
  intros Hr. unfold draw_face_landmarks.
  apply for_each_returns. intros landmarks img0 h0.
  apply for_each_returns. intros [feature points] img1 h1.
  apply for_each_returns. intros point img h.
  destruct (circle_returns env h img point 2
              (dict_get FEATURE_COLORS feature (200, 200, 200)) (-1) Hr)
    as [img' E].
  exists img', [Ev (Circle img point 2
                      (dict_get FEATURE_COLORS feature (200, 200, 200)) (-1))
                   (Ok img')].
  unfold perform. now rewrite E.
Qed.


(** ** The legend *)

Lemma legend_entry_inv (env : world) entry panel y h st t :
  legend_entry env entry (panel, y) h = (Ok st, t) ->
  exists p1 p2 e1 e2,
    st = (p2, y + 30) /\ t = [e1; e2] /\
    e1 = Ev (Circle panel (20, y - 5) 6 (snd entry) (-1)) (Ok p1) /\
    e2 = Ev (PutText p1 (fst entry) (40, y) FONT_HERSHEY_SIMPLEX (1 # 2)%Q
                     (snd entry) 1) (Ok p2) /\
    env _ h (Circle panel (20, y - 5) 6 (snd entry) (-1)) = Ok p1 /\
    env _ (h ++ [e1])
        (PutText p1 (fst entry) (40, y) FONT_HERSHEY_SIMPLEX (1 # 2)%Q
                 (snd entry) 1) = Ok p2.
Proof.
  destruct entry as [feature color]. unfold legend_entry. intros E.
  apply bind_inv_ok in E as (p1 & t1 & t1' & E1 & E & ->).
  apply bind_inv_ok in E as (p2 & t2 & t3 & E2 & E3 & ->).
  apply perform_inv in E1 as [E1 ->]. apply perform_inv in E2 as [E2 ->].
  injection E3 as <- <-.
  exists p1, p2. do 2 eexists. repeat split; simpl; auto.
Qed.

Lemma legend_loop_marks (env : world) entries :
  forall panel y h st t,
    for_each entries (legend_entry env) (panel, y) h = (Ok st, t) ->
    map mark_of t = map Some (legend_marks entries y).
Proof.
  induction entries as [|[feature color] entries IH]; intros panel y h st t; simpl.
  - now intros [= _ <-].
  - intros E. apply bind_inv_ok in E as ([p y'] & t1 & t2 & E1 & E2 & ->).
    apply (legend_entry_inv env (feature, color)) in E1
      as (p1 & p2 & e1 & e2 & [= -> ->] & -> & -> & -> & _).
    apply IH in E2. rewrite map_app, E2. reflexivity.
Qed.

Lemma legend_loop_shape (env : world) entries :
  draws_in_place env ->
  forall panel y h panel' y' t,
    for_each entries (legend_entry env) (panel, y) h = (Ok (panel', y'), t) ->
    same_shape panel panel'.
Proof.
  intros Hip.
  induction entries as [|entry entries IH]; intros panel y h panel' y' t;
    cbn [for_each].
  - now intros [= <- _ _].
  - intros E. apply bind_inv_ok in E as ([p y1] & t1 & t2 & E1 & E2 & ->).
    apply (legend_entry_inv env entry) in E1
      as (p1 & p2 & e1 & e2 & [= -> ->] & -> & -> & -> & A1 & A2).
    apply IH in E2. unfold same_shape in *.
    rewrite <- E2.
    transitivity (map (@length Color) p1).
    + eapply in_place_circle; eauto.
    + eapply in_place_put_text; eauto.
Qed.

Lemma legend_loop_returns (env : world) entries :
  draws_return env ->
  forall st h, exists st' t,
    for_each entries (legend_entry env) st h = (Ok st', t).
Proof.
  intros Hr.
  induction entries as [|[feature color] entries IH]; intros [panel y] h; simpl.
  - now exists (panel, y), [].
  - destruct (circle_returns env h panel (20, y - 5) 6 color (-1) Hr)
      as [p1 A1].
    destruct (put_text_returns env
                (h ++ [Ev (Circle panel (20, y - 5) 6 color (-1)) (Ok p1)])
                p1 feature (40, y) FONT_HERSHEY_SIMPLEX (1 # 2)%Q color 1 Hr)
      as [p2 A2].
    assert (E1 : legend_entry env (feature, color) (panel, y) h =
                 (Ok (p2, y + 30),
                  [Ev (Circle panel (20, y - 5) 6 color (-1)) (Ok p1);
                   Ev (PutText p1 feature (40, y) FONT_HERSHEY_SIMPLEX
                               (1 # 2)%Q color 1) (Ok p2)])).
    { unfold legend_entry, bind, perform, ret. rewrite A1, A2. reflexivity. }
    destruct (IH (p2, y + 30)
                 (h ++ [Ev (Circle panel (20, y - 5) 6 color (-1)) (Ok p1);
                        Ev (PutText p1 feature (40, y) FONT_HERSHEY_SIMPLEX
                                    (1 # 2)%Q color 1) (Ok p2)]))
      as (st' & t & E2).
    rewrite (bind_ok _ _ _ _ _ E1), E2. simpl. eauto.
Qed.

Lemma blank_panel (h w : nat) :
  uint8_scale 30 (np_ones h w) = repeat (repeat (30, 30, 30) w) h.
Proof.
  unfold uint8_scale, np_ones. rewrite !map_repeat. reflexivity.
Qed.

Lemma build_legend_inv (env : world) frame h legend t :
  build_legend env frame h = (Ok legend, t) ->
  exists y,
    for_each FEATURE_COLORS (legend_entry env)
             (repeat (repeat (30, 30, 30) legend_width) (length frame), 30) h
    = (Ok (legend, y), t).
Proof.
  unfold build_legend. rewrite blank_panel. intros E.
  apply bind_inv_ok in E as ([p y] & t1 & t2 & E1 & E2 & ->).
  injection E2 as <- <-. exists y. now rewrite app_nil_r.
Qed.

Lemma build_legend_returns (env : world) (frame : Frame) (hist : trace) :
  draws_return env ->
  exists legend t, build_legend env frame hist = (Ok legend, t).
Proof.
  intros Hr. unfold build_legend.
  destruct (legend_loop_returns env FEATURE_COLORS Hr
              (uint8_scale 30 (np_ones (length frame) legend_width), 30) hist)
    as ([legend y] & t & E).
  exists legend, t. rewrite (bind_ok _ _ _ _ _ E). simpl.
  now rewrite app_nil_r.
Qed.

Lemma has_shape_of_lengths (h w : nat) (f : Frame) :
  map (@length Color) f = repeat w h -> has_shape h w f.
Proof.
  intros E. split.
  - rewrite <- (length_map (@length Color)), E. apply repeat_length.
  - apply Forall_forall. intros row Hin.
    apply (in_map (@length Color)) in Hin. rewrite E in Hin.
    now apply repeat_spec in Hin.
Qed.

Lemma hstack_rows_shape (n m : nat) :
  forall (a b : Frame) (h : nat),
    has_shape h n a -> has_shape h m b ->
    has_shape h (n + m) (hstack_rows a b) /\
    map (firstn n) (hstack_rows a b) = a /\
    map (skipn n) (hstack_rows a b) = b.
Proof.
  induction a as [|ra a IH]; intros b h [La Fa] [Lb Fb].
  - simpl in *. subst h. destruct b; [|discriminate].
    repeat split; constructor.
  - destruct b as [|rb b]; [simpl in *; congruence|].
    simpl in La, Lb. destruct h as [|h]; [discriminate|].
    inversion Fa as [|? ? Hra Fa']; subst. inversion Fb as [|? ? Hrb Fb']; subst.
    destruct (IH b h) as ([L F] & H1 & H2); [split; auto; congruence.. |].
    simpl. repeat split.
    + simpl. congruence.
    + constructor; [now rewrite length_app | exact F].
    + rewrite H1. f_equal.
      rewrite firstn_app, Nat.sub_diag, firstn_all. simpl. apply app_nil_r.
    + rewrite H2. f_equal.
      rewrite skipn_app, Nat.sub_diag, skipn_all. reflexivity.
Qed.

Lemma add_legend_panel_run (env : world) (frame : Frame) (hist : trace)
      (legend : Frame) (t : trace) :
  draws_in_place env ->
  build_legend env frame hist = (Ok legend, t) ->
  has_shape (length frame) 200 legend /\
  np_hstack legend frame = Some (hstack_rows legend frame) /\
  add_legend_panel env frame hist = (Ok (hstack_rows legend frame), t).
Proof.
  intros Hip E.
  assert (Hl : has_shape (length frame) 200 legend).
  { apply build_legend_inv in E as [y E].
    apply (legend_loop_shape env _ Hip) in E. unfold same_shape in E.
    apply has_shape_of_lengths. rewrite <- E, map_repeat, repeat_length.
    reflexivity. }
  assert (Hh : np_hstack legend frame = Some (hstack_rows legend frame)).
  { unfold np_hstack. destruct Hl as [-> _]. now rewrite Nat.eqb_refl. }
  repeat split; try apply Hl; auto.
  unfold add_legend_panel. rewrite (bind_ok _ _ _ _ _ E), Hh. simpl.
  now rewrite app_nil_r.
Qed.

Lemma legend_loop_chained (env : world) (entries : dict Color) :
  forall panel y h legend y' t,
    for_each entries (legend_entry env) (panel, y) h = (Ok (legend, y'), t) ->
    chained panel t legend.
Proof.
  induction entries as [|entry entries IH]; intros panel y h legend y' t;
    cbn [for_each].
  - now intros [= <- _ <-].
  - intros E. apply bind_inv_ok in E as ([p y1] & t1 & t2 & E1 & E2 & ->).
    apply (legend_entry_inv env entry) in E1
      as (p1 & p2 & e1 & e2 & [= -> ->] & -> & -> & -> & _).
    apply IH in E2. cbn [app chained canvas_of drawn_of drawn_of_call].
    split; [reflexivity|]. exists p1. split; [reflexivity|].
    split; [reflexivity|]. exists p2. split; [reflexivity | exact E2].
Qed.

Lemma legend_marks_fit (height : nat) :
  Forall (disc_on_panel (Z.of_nat height) 200) (legend_marks FEATURE_COLORS 30)
  <-> (272 <= height)%nat.
Proof.
  unfold FEATURE_COLORS. cbn [legend_marks]. split.
  - intros H. rewrite Forall_forall in H.
    specialize (H (Disc (20, 30 + 30 + 30 + 30 + 30 + 30 + 30 + 30 + 30 - 5)
                        6 (0, 128, 128) (-1))).
    cbn [In] in H. specialize (H ltac:(tauto)).
    cbn [disc_on_panel] in H. lia.
  - intros H. repeat (constructor; [cbn [disc_on_panel]; lia|]). constructor.
Qed.

Lemma legend_events_fit (height : nat) (t : trace) :
  map mark_of t = map Some (legend_marks FEATURE_COLORS 30) ->
  Forall (fun e => forall m, mark_of e = Some m ->
                   disc_on_panel (Z.of_nat height) 200 m) t
  <-> (272 <= height)%nat.
Proof.
  intros Hm. rewrite <- legend_marks_fit.
  rewrite <- (Forall_map mark_of
                (fun o => forall m, o = Some m ->
                          disc_on_panel (Z.of_nat height) 200 m)).
  rewrite Hm, Forall_map. split; intros H.
  - eapply Forall_impl; [|exact H]. intros m Hm'. now apply Hm'.
  - eapply Forall_impl; [|exact H]. intros m Hm' m' [= <-]. exact Hm'.
Qed.

(** C7, amended: whatever the frame's height, [build_legend] returns when
    the drawing primitives do, and when it returns it has made two calls
    for each of the 9 entries of [FEATURE_COLORS], in the table's order:
    entry number [i] (from 0) gets a filled circle and then its name as a
    text label, both in the entry's colour, on the row at [30 + 30 * i]
    pixels from the top (the text there, the circle centred 5 pixels
    above).  The calls work in turn on one panel, which starts uniformly
    (30,30,30) with the frame's height and 200 columns, and the panel
    returned is what the last call left, of that same shape when drawing
    is in place.  All the circles lie on that panel exactly when the frame
    is at least 272 rows high. *)
Theorem C7_legend_entries (env : world) (frame : Frame) (hist : trace) :
  (draws_return env ->
   exists legend t, build_legend env frame hist = (Ok legend, t)) /\
  forall (legend : Frame) (t : trace),
    build_legend env frame hist = (Ok legend, t) ->
    length FEATURE_COLORS = 9%nat /\
    length t = 18%nat /\
    (forall (i : nat) (feature : string) (color : Color),
        nth_error FEATURE_COLORS i = Some (feature, color) ->
        let y_offset := 30 + 30 * Z.of_nat i in
        nth_error (map mark_of t) (2 * i)
        = Some (Some (Disc (20, y_offset - 5) 6 color (-1))) /\
        nth_error (map mark_of t) (2 * i + 1)
        = Some (Some (Label feature (40, y_offset) FONT_HERSHEY_SIMPLEX
                            (1 # 2)%Q color 1))) /\
    (exists e rest,
        t = e :: rest /\
        canvas_of e = Some (repeat (repeat (30, 30, 30) 200%nat) (length frame))) /\
    chained (repeat (repeat (30, 30, 30) 200%nat) (length frame)) t legend /\
    (draws_in_place env -> has_shape (length frame) 200 legend) /\
    (Forall (fun e => forall m, mark_of e = Some m ->
                      disc_on_panel (Z.of_nat (length frame)) 200 m) t
     <-> (272 <= length frame)%nat).
Proof.
  split; [apply build_legend_returns|].
  intros legend t Eb. pose proof Eb as E.
  apply build_legend_inv in E as [y E].
  pose proof (legend_loop_marks _ _ _ _ _ _ _ E) as Hm.
  split; [reflexivity|]. split; [|split; [|split; [|split; [|split]]]].
  - rewrite <- (length_map mark_of), Hm. reflexivity.
  - intros i feature color Hi y_offset. subst y_offset. rewrite Hm.
    do 9 (destruct i as [|i];
          [injection Hi as <- <-; split; reflexivity|]).
    destruct i; discriminate.
  - unfold FEATURE_COLORS in E. cbn [for_each] in E.
    apply bind_inv_ok in E as ([p y1] & t1 & t2 & E1 & _ & ->).
    apply (legend_entry_inv env ("chin", (255, 0, 0))) in E1
      as (p1 & p2 & e1 & e2 & _ & -> & -> & _).
    eexists _, _. split; reflexivity.
  - exact (legend_loop_chained env _ _ _ _ _ _ _ E).
  - intros Hip.
    exact (proj1 (add_legend_panel_run env frame hist legend t Hip Eb)).
  - now apply legend_events_fit.
Qed.

(** C6: given a non-empty frame of height [h] and width [w], drawing
    primitives that return and work in place, [add_legend_panel] returns
    an image of height [h] and width [200 + w] whose leftmost 200 columns
    are the legend panel and whose other columns are the frame. *)
Theorem C6_legend_attached (env : world) (frame : Frame) (hist : trace)
        (h w : nat) :
  draws_in_place env ->
  draws_return env ->
  has_shape h w frame ->
  (0 < h)%nat ->
  exists legend combined t,
    build_legend env frame hist = (Ok legend, t) /\
    add_legend_panel env frame hist = (Ok combined, t) /\
    has_shape h 200 legend /\
    has_shape h (200 + w) combined /\
    shape2 combined = (Z.of_nat h, 200 + Z.of_nat w) /\
    map (firstn 200) combined = legend /\
    map (skipn 200) combined = frame.
Proof.
  intros Hip Hr Hf Hh.
  destruct (build_legend_returns env frame hist Hr) as (legend & t & Eb).
  destruct (add_legend_panel_run env frame hist legend t Hip Eb)
    as (Hl & _ & Ea).
  pose proof Hf as [Lf _]. rewrite Lf in Hl.
  destruct (hstack_rows_shape 200 w legend frame h Hl Hf) as (Hc & H1 & H2).
  exists legend, (hstack_rows legend frame), t.
  repeat split; try apply Hl; try apply Hc; auto.
  destruct Hc as [Lc Fc]. unfold shape2. rewrite Lc.
  destruct (hstack_rows legend frame) as [|row rows]; [simpl in Lc; lia|].
  inversion Fc as [|? ? Hrow _]; subst. rewrite Hrow. f_equal. lia.
Qed.

(** ** The main loop *)

Ltac emits_step :=
  first [ apply emits_ret
        | apply emits_raise
        | apply emits_perform; intros; reflexivity
        | apply emits_for_each; intros
        | apply emits_bind; [|intros] ].

Lemma loop_body_no_cleanup (env : world) :
  emits (fun e => is_cleanup e = false) (loop_body env).
Proof.
  unfold loop_body. emits_step; [emits_step|].
  destruct a as [frame|]; [|repeat emits_step].
  do 2 (emits_step; [emits_step|]).
  emits_step.
  { unfold draw_boxes. emits_step. unfold draw_box.
    destruct (shape2 s) as [h w].
    destruct (expand_box h w x) as [[[l t] r] b]. emits_step. }
  emits_step.
  { unfold draw_face_landmarks. do 2 emits_step.
    destruct x0 as [feature points]. repeat emits_step. }
  emits_step.
  { unfold add_legend_panel, build_legend. emits_step.
    - emits_step; [|emits_step]. emits_step.
      destruct x as [feature color], s as [panel y]. unfold legend_entry.
      repeat emits_step.
    - destruct (np_hstack _ _); emits_step. }
  emits_step; [emits_step|]. emits_step; [emits_step|].
  destruct (0 <? a5); emits_step.
Qed.

Lemma cleanup_run (env : world) (h : trace) :
  cleanup_returns env ->
  cleanup env h = (Ok tt, [Ev Release (Ok tt); Ev DestroyAllWindows (Ok tt)]).
Proof.
  intros Hc. unfold cleanup, bind, perform.
  destruct (Hc h) as [-> _].
  destruct (Hc (h ++ [Ev Release (Ok tt)])) as [_ ->]. reflexivity.
Qed.

Lemma main_opened (env : world) (fuel : nat) :
  env _ [] (VideoCapture 0) = Ok tt ->
  env _ [Ev (VideoCapture 0) (Ok tt)] IsOpened = Ok true ->
  main env fuel [] =
    (fst (try_finally (while_true fuel (loop_body env)) (cleanup env)
            [Ev (VideoCapture 0) (Ok tt); Ev IsOpened (Ok true)]),
     [Ev (VideoCapture 0) (Ok tt); Ev IsOpened (Ok true)]
       ++ snd (try_finally (while_true fuel (loop_body env)) (cleanup env)
                 [Ev (VideoCapture 0) (Ok tt); Ev IsOpened (Ok true)])).
Proof.
  intros Hv Ho. unfold main.
  assert (E1 : perform env (VideoCapture 0) [] =
               (Ok tt, [Ev (VideoCapture 0) (Ok tt)]))
    by (unfold perform; now rewrite Hv).
  rewrite (bind_ok _ _ _ _ _ E1). cbn [app].
  assert (E2 : perform env IsOpened [Ev (VideoCapture 0) (Ok tt)] =
               (Ok true, [Ev IsOpened (Ok true)]))
    by (unfold perform; now rewrite Ho).
  rewrite (bind_ok _ _ _ _ _ E2). cbn [app negb fst snd]. reflexivity.
Qed.

(** C3: once the camera has opened, on every way out of the loop, a key
    press (the loop returns) or an exception raised by any call of the
    loop body (the loop raises), [main] releases the camera and then
    closes the windows before control leaves it, these being the last two
    things it does and nothing the loop does itself, and [main] ends the
    way the loop ended: the exception, if any, goes on to the caller. *)
Theorem C3_cleanup_on_every_exit (env : world) (fuel : nat)
        (r : outcome unit) (loop_trace : trace) :
  cleanup_returns env ->
  env _ [] (VideoCapture 0) = Ok tt ->
  env _ [Ev (VideoCapture 0) (Ok tt)] IsOpened = Ok true ->
  while_true fuel (loop_body env)
             [Ev (VideoCapture 0) (Ok tt); Ev IsOpened (Ok true)]
  = (r, loop_trace) ->
  r <> Running ->
  main env fuel [] =
    (r, [Ev (VideoCapture 0) (Ok tt); Ev IsOpened (Ok true)]
          ++ loop_trace
          ++ [Ev Release (Ok tt); Ev DestroyAllWindows (Ok tt)]) /\
  Forall (fun e => is_cleanup e = false) loop_trace.
Proof.
  intros Hc Hv Ho El Hr. split.
  - rewrite (main_opened env fuel Hv Ho). unfold try_finally. rewrite El.
    destruct r as [[]|e|]; [| |contradiction];
      rewrite cleanup_run by exact Hc; reflexivity.
  - pose proof (emits_while_true _ _ fuel (loop_body_no_cleanup env)
                  [Ev (VideoCapture 0) (Ok tt); Ev IsOpened (Ok true)]) as Hn.
    now rewrite El in Hn.
Qed.

Lemma loop_body_failed (env : world) (h : trace) :
  env _ h Read = Ok None ->
  env _ (h ++ [Ev Read (Ok None)]) (Print "Warning: Failed to capture frame.")
  = Ok tt ->
  loop_body env h = (Ok Next, failed_capture (Ok tt)).
Proof.
  intros Hr Hp. unfold loop_body, bind, perform, ret. rewrite Hr, Hp.
  reflexivity.
Qed.

Lemma keeps_failing_next (env : world) (h : trace) (n : nat) :
  keeps_failing env h (S n) ->
  keeps_failing env (h ++ failed_capture (Ok tt)) n.
Proof.
  intros H k Hk. destruct (H (S k)) as [Hr Hp]; [lia|].
  cbn [failed_captures] in Hr, Hp. rewrite app_assoc in Hr, Hp. auto.
Qed.

Lemma while_failing (env : world) (m : nat) :
  forall (n : nat) (h : trace),
    keeps_failing env h n ->
    while_true (n + m) (loop_body env) h =
      (fst (while_true m (loop_body env) (h ++ failed_captures n)),
       failed_captures n ++ snd (while_true m (loop_body env)
                                            (h ++ failed_captures n))).
Proof.
  induction n as [|n IH]; intros h Hk.
  - cbn [failed_captures Nat.add app]. rewrite app_nil_r.
    now destruct (while_true m (loop_body env) h).
  - destruct (Hk 0%nat) as [Hr Hp]; [lia|].
    cbn [failed_captures] in Hr, Hp. rewrite app_nil_r in Hr, Hp.
    pose proof (loop_body_failed env h Hr Hp) as Eb.
    cbn [Nat.add while_true]. rewrite (bind_ok _ _ _ _ _ Eb).
    rewrite (IH _ (keeps_failing_next env h n Hk)).
    cbn [failed_captures fst snd]. rewrite <- !app_assoc. reflexivity.
Qed.

(** C2: whenever the camera fails to deliver a frame, that turn of the
    loop consists of the read and the printed warning and ends with
    [continue]: nothing is detected, drawn, shown, released or closed.
    After any number [n] of failures in a row the loop goes on exactly as
    a loop started afresh would, and the [finally] suite has not run. *)
Theorem C2_failed_capture_keeps_looping (env : world) (h : trace) (n : nat) :
  keeps_failing env h n ->
  (forall k : nat, (k < n)%nat ->
     loop_body env (h ++ failed_captures k)
     = (Ok Next, [Ev Read (Ok None);
                  Ev (Print "Warning: Failed to capture frame.") (Ok tt)])) /\
  (forall m : nat,
     while_true (n + m) (loop_body env) h =
       (fst (while_true m (loop_body env) (h ++ failed_captures n)),
        failed_captures n ++ snd (while_true m (loop_body env)
                                             (h ++ failed_captures n)))) /\
  try_finally (while_true n (loop_body env)) (cleanup env) h
  = (Running, failed_captures n).
Proof.
  intros Hk. split; [|split].
  - intros k Hlt. destruct (Hk k Hlt) as [Hr Hp].
    now apply loop_body_failed.
  - intros m. now apply while_failing.
  - unfold try_finally.
    replace n with (n + 0)%nat at 1 by lia.
    rewrite (while_failing env 0 n h Hk). cbn [while_true fst snd].
    now rewrite app_nil_r.
Qed.

(** ** Start-up *)

(** C5, as stated, fails: with a camera that does not open, the program
    prints its error and stops, but [main] returns normally and the
    process ends with status 0, as it does after a key press. *)
Lemma C5_no_failure_status :
  sample_world no_camera _ [Ev (VideoCapture 0) (Ok tt)] IsOpened = Ok false /\
  main (sample_world no_camera) 1 [] =
    (Ok tt, [Ev (VideoCapture 0) (Ok tt); Ev IsOpened (Ok false);
             Ev (Print "Error: Cannot access camera.") (Ok tt)]) /\
  ~ signals_failure (fst (main (sample_world no_camera) 1 [])).
Proof.
  split; [reflexivity|]. split; [reflexivity|].
  intros (code & Hs & Hc). vm_compute in Hs. congruence.
Qed.

(** C5, amended: when the camera cannot be opened, [main] prints the one
    error message and returns at once: no frame is read, nothing is
    released or closed, the loop is not entered whatever its fuel, and the
    process ends with status 0. *)
Theorem C5_camera_unavailable (env : world) (fuel : nat) :
  env _ [] (VideoCapture 0) = Ok tt ->
  env _ [Ev (VideoCapture 0) (Ok tt)] IsOpened = Ok false ->
  env _ [Ev (VideoCapture 0) (Ok tt); Ev IsOpened (Ok false)]
      (Print "Error: Cannot access camera.") = Ok tt ->
  main env fuel [] =
    (Ok tt, [Ev (VideoCapture 0) (Ok tt); Ev IsOpened (Ok false);
             Ev (Print "Error: Cannot access camera.") (Ok tt)]) /\
  exit_status (fst (main env fuel [])) = Some 0.
Proof.
  intros Hv Ho Hp.
  assert (E : main env fuel [] =
    (Ok tt, [Ev (VideoCapture 0) (Ok tt); Ev IsOpened (Ok false);
             Ev (Print "Error: Cannot access camera.") (Ok tt)])).
  { unfold main, bind, perform. rewrite Hv. cbn [app]. rewrite Ho.
    cbn [app negb]. rewrite Hp. reflexivity. }
  split; [exact E | now rewrite E].
Qed.

(** ** A successful capture *)

Lemma mirrored_rgb_pixel (frame : Frame) (y x : nat) (row : list Color)
      (b g r : Z) :
  nth_error frame y = Some row ->
  nth_error row x = Some (b, g, r) ->
  exists row',
    nth_error (reverse_channels (cv2_flip frame 1)) y = Some row' /\
    length row' = length row /\
    nth_error row' (length row - 1 - x) = Some (r, g, b).
Proof.
  intros Hy Hx. unfold reverse_channels, cv2_flip. cbn [Z.eqb Z.ltb Z.compare].
  rewrite !nth_error_map, Hy. cbn [option_map].
  eexists. split; [reflexivity|].
  assert (Hlt : (x < length row)%nat)
    by (apply nth_error_Some; congruence).
  split; [now rewrite length_map, length_rev|].
  rewrite nth_error_map, nth_error_rev.
  destruct (Nat.ltb_spec (length row - 1 - x) (length row)); [|lia].
  replace (length row - S (length row - 1 - x))%nat with x by lia.
  now rewrite Hx.
Qed.

Lemma loop_body_captured (env : world) (h : trace) (frame : Frame) :
  env _ h Read = Ok (Some frame) ->
  loop_body env h =
    (fst (loop_body env h),
     Ev Read (Ok (Some frame))
     :: snd ((face_locations <-
                perform env (FaceLocations (reverse_channels (cv2_flip frame 1))) ;;
              face_landmarks_list <-
                perform env (FaceLandmarks (reverse_channels (cv2_flip frame 1))) ;;
              frame' <- draw_boxes env (cv2_flip frame 1) face_locations ;;
              frame' <- draw_face_landmarks env frame' face_landmarks_list ;;
              output_frame <- add_legend_panel env frame' ;;
              perform env (Imshow window_title output_frame) ;;;
              key <- perform env (WaitKey 1) ;;
              if 0 <? key then ret Break else ret Next)
             (h ++ [Ev Read (Ok (Some frame))]))).
Proof.
  intros Hr.
  assert (E : perform env Read h = (Ok (Some frame), [Ev Read (Ok (Some frame))]))
    by (unfold perform; now rewrite Hr).
  unfold loop_body at 2. rewrite (bind_ok _ _ _ _ _ E). cbn [fst snd app].
  unfold loop_body. rewrite (bind_ok _ _ _ _ _ E). reflexivity.
Qed.

(** C8: in a turn of the loop whose capture succeeds, the first thing done
    with the frame is to mirror it; the face-location detector is called
    next, on the mirrored frame with its channels reversed (pixel [x] of a
    row of the capture, blue-green-red, is found red-green-blue at
    [width - 1 - x]), then the landmark detector on that same image, and
    the drawing that follows starts from the mirrored frame. *)
Theorem C8_detectors_get_mirrored_rgb (env : world) (h : trace)
        (frame : Frame) :
  env _ h Read = Ok (Some frame) ->
  let mirrored := cv2_flip frame 1 in
  let rgb_frame := reverse_channels mirrored in
  let h1 := h ++ [Ev Read (Ok (Some frame))] in
  let located := env _ h1 (FaceLocations rgb_frame) in
  let h2 := h1 ++ [Ev (FaceLocations rgb_frame) located] in
  let marked := env _ h2 (FaceLandmarks rgb_frame) in
  let h3 := h2 ++ [Ev (FaceLandmarks rgb_frame) marked] in
  (forall (y x : nat) (row : list Color) (b g r : Z),
      nth_error frame y = Some row ->
      nth_error row x = Some (b, g, r) ->
      exists row',
        nth_error rgb_frame y = Some row' /\
        length row' = length row /\
        nth_error row' (length row - 1 - x) = Some (r, g, b)) /\
  exists rest,
    snd (loop_body env h)
    = Ev Read (Ok (Some frame)) :: Ev (FaceLocations rgb_frame) located :: rest /\
    forall face_locations,
      located = Ok face_locations ->
      exists rest',
        rest = Ev (FaceLandmarks rgb_frame) marked :: rest' /\
        forall face_landmarks_list,
          marked = Ok face_landmarks_list ->
          exists rest'',
            rest' = snd (draw_boxes env mirrored face_locations h3) ++ rest''.
Proof.
  intros Hr mirrored rgb_frame h1 located h2 marked h3.
  split; [intros; now apply mirrored_rgb_pixel|].
  rewrite (loop_body_captured env h frame Hr). cbn [snd].
  fold mirrored rgb_frame h1.
  unfold bind at 1. unfold perform at 1. fold located.
  destruct located as [face_locations| |] eqn:El.
  - fold h2.
    match goal with
    | |- context [let (r, t2) := ?k h2 in _] => destruct (k h2) as [r2 t2] eqn:E2
    end.
    exists t2. split; [reflexivity|].
    intros locs [= <-].
    unfold bind at 1 in E2. unfold perform at 1 in E2. fold marked in E2.
    destruct marked as [face_landmarks_list| |] eqn:Em.
    + fold h3 in E2.
      match type of E2 with
      | (let (r, t2) := ?k h3 in _) = _ => destruct (k h3) as [r3 t3] eqn:E3
      end.
      injection E2 as <- <-. exists t3. split; [reflexivity|].
      intros lms [= <-].
      destruct (bind_trace_prefix (draw_boxes env mirrored face_locations)
        (fun frame' =>
           frame'0 <- draw_face_landmarks env frame' face_landmarks_list ;;
           output_frame <- add_legend_panel env frame'0 ;;
           perform env (Imshow window_title output_frame) ;;;
           key <- perform env (WaitKey 1) ;;
           if 0 <? key then ret Break else ret Next) h3) as [rest'' Hp].
      exists rest''. rewrite <- Hp. now rewrite E3.
    + injection E2 as <- <-. exists []. split; [reflexivity|]. discriminate.
    + injection E2 as <- <-. exists []. split; [reflexivity|]. discriminate.
  - exists []. split; [reflexivity|]. discriminate.
  - exists []. split; [reflexivity|]. discriminate.
Qed.

Lemma hstack_rows_split (n : nat) :
  forall a b : Frame,
    length a = length b ->
    Forall (fun row => length row = n) a ->
    map (firstn n) (hstack_rows a b) = a /\
    map (skipn n) (hstack_rows a b) = b.
Proof.
  induction a as [|ra a IH]; intros [|rb b] L F; try discriminate.
  - split; reflexivity.
  - inversion F as [|? ? Hra F']; subst. injection L as L.
    destruct (IH b L F') as [H1 H2]. simpl. rewrite H1, H2. split; f_equal.
    + rewrite firstn_app, Nat.sub_diag, firstn_all. simpl. apply app_nil_r.
    + rewrite skipn_app, Nat.sub_diag, skipn_all. reflexivity.
Qed.

(** C10: when both detectors return an empty sequence, neither the box
    stage nor the landmark stage makes a call, each hands the mirrored
    frame back untouched, the legend is built when the drawing primitives
    return, and the image shown is then the legend panel with the mirrored
    frame to its right: its first 200 columns are the panel, the others
    the mirrored frame as captured. *)
Theorem C10_no_faces_nothing_drawn (env : world) (h : trace) (frame : Frame) :
  draws_in_place env ->
  env _ h Read = Ok (Some frame) ->
  let mirrored := cv2_flip frame 1 in
  let rgb_frame := reverse_channels mirrored in
  let h3 := h ++ [Ev Read (Ok (Some frame));
                  Ev (FaceLocations rgb_frame) (Ok []);
                  Ev (FaceLandmarks rgb_frame) (Ok [])] in
  env _ (h ++ [Ev Read (Ok (Some frame))]) (FaceLocations rgb_frame) = Ok [] ->
  env _ (h ++ [Ev Read (Ok (Some frame)); Ev (FaceLocations rgb_frame) (Ok [])])
      (FaceLandmarks rgb_frame) = Ok [] ->
  draw_boxes env mirrored [] h3 = (Ok mirrored, []) /\
  draw_face_landmarks env mirrored [] h3 = (Ok mirrored, []) /\
  (draws_return env ->
   exists legend t, build_legend env mirrored h3 = (Ok legend, t)) /\
  forall (legend : Frame) (t : trace),
    build_legend env mirrored h3 = (Ok legend, t) ->
    exists shown rest,
      np_hstack legend mirrored = Some shown /\
      map (firstn 200) shown = legend /\
      map (skipn 200) shown = mirrored /\
      snd (loop_body env h)
      = [Ev Read (Ok (Some frame));
         Ev (FaceLocations rgb_frame) (Ok []);
         Ev (FaceLandmarks rgb_frame) (Ok [])]
          ++ t
          ++ Ev (Imshow window_title shown)
                (env _ (h3 ++ t) (Imshow window_title shown))
          :: rest.
Proof.
  intros Hip Hr mirrored rgb_frame h3 Hl Hm.
  split; [reflexivity|]. split; [reflexivity|].
  split; [apply build_legend_returns|].
  intros legend t Eb.
  destruct (add_legend_panel_run env mirrored h3 legend t Hip Eb)
    as ([Ll Fl] & Hh & Ea).
  destruct (hstack_rows_split 200 legend mirrored Ll Fl) as [H1 H2].
  rewrite (loop_body_captured env h frame Hr). cbn [snd].
  fold mirrored rgb_frame.
  assert (E1 : perform env (FaceLocations rgb_frame)
                       (h ++ [Ev Read (Ok (Some frame))])
               = (Ok [], [Ev (FaceLocations rgb_frame) (Ok [])]))
    by (unfold perform; now rewrite Hl).
  rewrite (bind_ok _ _ _ _ _ E1). cbn [snd]. rewrite <- app_assoc. cbn [app].
  assert (E2 : perform env (FaceLandmarks rgb_frame)
                       (h ++ [Ev Read (Ok (Some frame));
                              Ev (FaceLocations rgb_frame) (Ok [])])
               = (Ok [], [Ev (FaceLandmarks rgb_frame) (Ok [])]))
    by (unfold perform; now rewrite Hm).
  rewrite (bind_ok _ _ _ _ _ E2). cbn [snd]. rewrite <- app_assoc. cbn [app].
  fold h3.
  assert (E3 : draw_boxes env mirrored [] h3 = (Ok mirrored, []))
    by reflexivity.
  rewrite (bind_ok _ _ _ _ _ E3). cbn [snd app]. rewrite app_nil_r.
  assert (E4 : draw_face_landmarks env mirrored [] h3 = (Ok mirrored, []))
    by reflexivity.
  rewrite (bind_ok _ _ _ _ _ E4). cbn [snd app]. rewrite app_nil_r.
  rewrite (bind_ok _ _ _ _ _ Ea). cbn [snd].
  destruct (bind_trace_prefix
              (perform env (Imshow window_title (hstack_rows legend mirrored)))
              (fun _ => key <- perform env (WaitKey 1) ;;
                        if 0 <? key then ret Break else ret Next)
              (h3 ++ t)) as [rest Hp].
  exists (hstack_rows legend mirrored), rest.
  repeat split; auto. rewrite Hp. reflexivity.
Qed.

(** ** The sample world *)

Lemma mapi_from_length {A B : Type} (f : Z -> A -> B) (l : list A) :
  forall i, length (mapi_from i f l) = length l.
Proof. induction l as [|a l IH]; intros i; simpl; [reflexivity | now rewrite IH]. Qed.

Lemma paint_same_shape (inside : Z -> Z -> bool) (color : Color) (img : Frame) :
  same_shape img (paint inside color img).
Proof.
  unfold same_shape, paint. generalize 0 at 1.
  induction img as [|row img IH]; intros i; simpl; [reflexivity|].
  now rewrite mapi_from_length, <- IH.
Qed.

Lemma sample_world_draws_in_place (sc : scenario) :
  draws_in_place (sample_world sc).
Proof.
  intros T h c img img'.
  destruct c; simpl; try discriminate; intros [= <-] [= <-];
    first [apply paint_same_shape | reflexivity].
Qed.

Lemma sample_world_draws_return (sc : scenario) :
  draws_return (sample_world sc).
Proof.
  intros T h c. destruct c; simpl; intros H; try congruence; eauto.
Qed.

Lemma sample_world_cleanup_returns (sc : scenario) :
  cleanup_returns (sample_world sc).
Proof. intros h. split; reflexivity. Qed.

Lemma blind_camera_keeps_failing :
  keeps_failing (sample_world blind_camera) [] 3.
Proof.
  intros k Hk. do 3 (destruct k as [|k]; [split; reflexivity|]). lia.
Qed.

(** A run in front of one face: two composites shown, the missed capture
    in between only warned about, the camera released at the key press. *)
Example one_face_run :
  let (r, t) := main (sample_world one_face) 5 [] in
  r = Ok tt /\
  length (filter is_read t) = 3%nat /\
  map mark_of (firstn 4 (skipn 5 t))
  = [Some (Outline (0, 0) (6, 4) (0, 150, 0) 2);
     Some (Disc (2, 2) 2 (0, 0, 255) (-1));
     Some (Disc (3, 2) 2 (0, 0, 255) (-1));
     Some (Disc (3, 1) 2 (200, 200, 200) (-1))] /\
  map is_cleanup (skipn (length t - 2) t) = [true; true].
Proof. vm_compute. repeat split. Qed.

(** Reading past the script interrupts the loop; the camera is released
    and the windows closed all the same. *)
Example interrupted_run :
  let (r, t) := main (sample_world empty_room) 5 [] in
  r = Raise (PyError "KeyboardInterrupt") /\
  map is_cleanup (skipn (length t - 2) t) = [true; true] /\
  exit_status r = Some 130.
Proof. vm_compute. repeat split. Qed.

(** ** Instances *)

Lemma C1_witness :
  (exists l t r b,
      corners_within 4 6 l t r b /\
      snd (draw_box (sample_world one_face) (1, 4, 3, 2) (black 4 6) []) =
        [Ev (Rectangle (black 4 6) (l, t) (r, b) (0, 150, 0) 2)
            (sample_world one_face _ []
               (Rectangle (black 4 6) (l, t) (r, b) (0, 150, 0) 2))]) /\
  (draws_in_place (sample_world one_face) ->
   Forall (box_within 4 6) [(1, 4, 3, 2); (0, 6, 4, 0)] ->
   Forall (fun e => exists l t r b,
               mark_of e = Some (Outline (l, t) (r, b) (0, 150, 0) 2) /\
               corners_within 4 6 l t r b)
          (snd (draw_boxes (sample_world one_face) (black 4 6)
                           [(1, 4, 3, 2); (0, 6, 4, 0)] []))).
Proof.
  apply (C1_padded_box_within_frame (sample_world one_face) [] (black 4 6)
           4 6 (1, 4, 3, 2) [(1, 4, 3, 2); (0, 6, 4, 0)]).
  - reflexivity.
  - unfold box_within. lia.
Defined.

Lemma C2_witness :
  keeps_failing (sample_world blind_camera) [] 3 /\
  try_finally (while_true 3 (loop_body (sample_world blind_camera)))
              (cleanup (sample_world blind_camera)) []
  = (Running, failed_captures 3).
Proof.
  split; [exact blind_camera_keeps_failing|].
  apply (C2_failed_capture_keeps_looping (sample_world blind_camera) [] 3).
  exact blind_camera_keeps_failing.
Defined.

Lemma C3_witness :
  let h0 := [Ev (VideoCapture 0) (Ok tt); Ev IsOpened (Ok true)] in
  let finally_suite := [Ev Release (Ok tt); Ev DestroyAllWindows (Ok tt)] in
  main (sample_world one_face) 5 [] =
    (Ok tt,
     h0 ++ snd (while_true 5 (loop_body (sample_world one_face)) h0)
        ++ finally_suite) /\
  main (sample_world empty_room) 5 [] =
    (Raise (PyError "KeyboardInterrupt"),
     h0 ++ snd (while_true 5 (loop_body (sample_world empty_room)) h0)
        ++ finally_suite).
Proof.
  intros h0 finally_suite. split.
  - apply (C3_cleanup_on_every_exit (sample_world one_face) 5 (Ok tt)
             (snd (while_true 5 (loop_body (sample_world one_face)) h0))).
    + apply sample_world_cleanup_returns.
    + reflexivity.
    + reflexivity.
    + vm_compute. reflexivity.
    + discriminate.
  - apply (C3_cleanup_on_every_exit (sample_world empty_room) 5
             (Raise (PyError "KeyboardInterrupt"))
             (snd (while_true 5 (loop_body (sample_world empty_room)) h0))).
    + apply sample_world_cleanup_returns.
    + reflexivity.
    + reflexivity.
    + vm_compute. reflexivity.
    + discriminate.
Defined.


Lemma C5_witness :
  main (sample_world no_camera) 7 [] =
    (Ok tt, [Ev (VideoCapture 0) (Ok tt); Ev IsOpened (Ok false);
             Ev (Print "Error: Cannot access camera.") (Ok tt)]) /\
  exit_status (fst (main (sample_world no_camera) 7 [])) = Some 0.
Proof.
  apply (C5_camera_unavailable (sample_world no_camera) 7); reflexivity.
Defined.

Lemma C6_witness :
  exists legend combined t,
    build_legend (sample_world empty_room) (black 4 6) [] = (Ok legend, t) /\
    add_legend_panel (sample_world empty_room) (black 4 6) [] = (Ok combined, t) /\
    has_shape 4 200 legend /\
    has_shape 4 (200 + 6) combined /\
    shape2 combined = (Z.of_nat 4, 200 + Z.of_nat 6) /\
    map (firstn 200) combined = legend /\
    map (skipn 200) combined = black 4 6.
Proof.
  apply (C6_legend_attached (sample_world empty_room) (black 4 6) [] 4 6).
  - apply sample_world_draws_in_place.
  - apply sample_world_draws_return.
  - split; [reflexivity | repeat constructor].
  - lia.
Defined.

(** C7, as stated, fails on a low frame: a 320 x 240 capture gets a panel
    of 240 rows, and the circle of the ninth entry, which [build_legend]
    asks for all the same, is centred on row 265, below the panel: the
    panel cannot hold that entry. *)
Lemma C7_short_frame_cuts_legend :
  length (black 240 320) = 240%nat /\
  exists legend t,
    build_legend (sample_world empty_room) (black 240 320) [] = (Ok legend, t) /\
    has_shape 240 200 legend /\
    (exists e,
        In e t /\ mark_of e = Some (Disc (20, 265) 6 (0, 128, 128) (-1))) /\
    ~ disc_on_panel 240 200 (Disc (20, 265) 6 (0, 128, 128) (-1)).
Proof.
  assert (L : length (black 240 320) = 240%nat)
    by (unfold black; apply repeat_length).
  split; [exact L|].
  destruct (build_legend_returns (sample_world empty_room) (black 240 320) []
              (sample_world_draws_return empty_room)) as (legend & t & Eb).
  exists legend, t. split; [exact Eb|]. split; [|split].
  - rewrite <- L.
    exact (proj1 (add_legend_panel_run _ _ _ _ _
                    (sample_world_draws_in_place empty_room) Eb)).
  - apply build_legend_inv in Eb as [y E].
    pose proof (legend_loop_marks _ _ _ _ _ _ _ E) as Hm.
    assert (H : In (Some (Disc (20, 265) 6 (0, 128, 128) (-1)))
                   (map mark_of t)).
    { rewrite Hm. apply in_map. unfold FEATURE_COLORS. cbn. tauto. }
    apply in_map_iff in H as (e & He & Hin).
    exists e. split; [exact Hin | exact He].
  - clear. cbn [disc_on_panel]. lia.
Qed.

Lemma C7_witness :
  let frame := black 4 6 in
  let run := build_legend (sample_world empty_room) frame [] in
  let t := snd run in
  let legend := returned_or (fst run) [] in
  length FEATURE_COLORS = 9%nat /\
  length t = 18%nat /\
  (forall (i : nat) (feature : string) (color : Color),
      nth_error FEATURE_COLORS i = Some (feature, color) ->
      let y_offset := 30 + 30 * Z.of_nat i in
      nth_error (map mark_of t) (2 * i)
      = Some (Some (Disc (20, y_offset - 5) 6 color (-1))) /\
      nth_error (map mark_of t) (2 * i + 1)
      = Some (Some (Label feature (40, y_offset) FONT_HERSHEY_SIMPLEX
                          (1 # 2)%Q color 1))) /\
  (exists e rest,
      t = e :: rest /\
      canvas_of e = Some (repeat (repeat (30, 30, 30) 200%nat) (length frame))) /\
  chained (repeat (repeat (30, 30, 30) 200%nat) (length frame)) t legend /\
  (draws_in_place (sample_world empty_room) ->
   has_shape (length frame) 200 legend) /\
  (Forall (fun e => forall m, mark_of e = Some m ->
                    disc_on_panel (Z.of_nat (length frame)) 200 m) t
   <-> (272 <= length frame)%nat).
Proof.
  intros frame run t legend.
  apply (proj2 (C7_legend_entries (sample_world empty_room) frame [])
               legend t).
  vm_compute. reflexivity.
Defined.

Lemma C8_witness :
  exists rest,
    snd (loop_body (sample_world one_face) [])
    = Ev Read (Ok (Some (black 4 6)))
      :: Ev (FaceLocations (reverse_channels (cv2_flip (black 4 6) 1)))
            (Ok (faces one_face))
      :: Ev (FaceLandmarks (reverse_channels (cv2_flip (black 4 6) 1)))
            (Ok (landmarks one_face))
      :: rest.
Proof.
  destruct (C8_detectors_get_mirrored_rgb (sample_world one_face) []
              (black 4 6) eq_refl) as [_ [rest [H1 H2]]].
  destruct (H2 (faces one_face) eq_refl) as [rest' [-> _]].
  exists rest'. exact H1.
Defined.

Lemma C10_witness :
  draw_boxes (sample_world empty_room) (cv2_flip (black 4 6) 1) []
             [Ev Read (Ok (Some (black 4 6)));
              Ev (FaceLocations (reverse_channels (cv2_flip (black 4 6) 1)))
                 (Ok []);
              Ev (FaceLandmarks (reverse_channels (cv2_flip (black 4 6) 1)))
                 (Ok [])]
  = (Ok (cv2_flip (black 4 6) 1), []).
Proof.
  apply (C10_no_faces_nothing_drawn (sample_world empty_room) [] (black 4 6)).
  - apply sample_world_draws_in_place.
  - reflexivity.
  - reflexivity.
  - reflexivity.
Defined.

(** * Further properties of the code *)

(** ** Padding and clamping (lines 82-87) *)

(** X1: whatever the face box, even one outside the frame, the padded
    corners never pass the outer bounds: left and top are at least 0,
    right is at most [w] and bottom at most [h]; and a box that reaches
    to within 20 pixels of the right or bottom edge is clamped to [w] or
    [h] itself, one past the last column or row. *)
Theorem expand_box_outer_bounds (h w : Z) (top right_ bottom left_ : Z) :
  let '(l, t, r, b) := expand_box h w (top, right_, bottom, left_) in
  (0 <= l /\ 0 <= t /\ r <= w /\ b <= h) /\
  (w <= right_ + 20 -> r = w) /\
  (h <= bottom + 20 -> b = h) /\
  (left_ <= 20 -> l = 0) /\
  (top <= 20 -> t = 0).
Proof. unfold expand_box. lia. Qed.

(** X2: for a face box inside the frame the padded rectangle contains the
    box and grows it by at most 20 pixels on each side, by exactly 20
    wherever the frame leaves that much room. *)
Theorem expand_box_contains_box (h w : Z) (top right_ bottom left_ : Z) :
  box_within h w (top, right_, bottom, left_) ->
  let '(l, t, r, b) := expand_box h w (top, right_, bottom, left_) in
  (l <= left_ /\ right_ <= r /\ t <= top /\ bottom <= b) /\
  (left_ - l <= 20 /\ r - right_ <= 20 /\ top - t <= 20 /\ b - bottom <= 20) /\
  (20 <= left_ -> l = left_ - 20) /\
  (right_ + 20 <= w -> r = right_ + 20) /\
  (20 <= top -> t = top - 20) /\
  (bottom + 20 <= h -> b = bottom + 20).
Proof. unfold box_within, expand_box. lia. Qed.

(** X3: the ordering of the corners does depend on the box being in the
    frame: a box that starts more than 20 pixels right of the frame, or
    more than 20 pixels below it, gets a rectangle whose right is left of
    its left, or whose bottom is above its top. *)
Theorem expand_box_outside_inverts (h w : Z) (top right_ bottom left_ : Z) :
  w + 20 < left_ \/ h + 20 < top ->
  let '(l, t, r, b) := expand_box h w (top, right_, bottom, left_) in
  r < l \/ b < t.
Proof. unfold expand_box. lia. Qed.

(** ** Mirroring and channel order (lines 71-74) *)

(** X4: mirroring and channel reversal keep the height and the width, so
    the face boxes found on the converted image are in the coordinates of
    the frame they are drawn on. *)
Theorem detector_image_has_frame_shape (frame : Frame) :
  shape2 (cv2_flip frame 1) = shape2 frame /\
  shape2 (reverse_channels (cv2_flip frame 1)) = shape2 frame /\
  same_shape frame (reverse_channels (cv2_flip frame 1)).
Proof.
  unfold shape2, same_shape, reverse_channels, cv2_flip.
  cbn [Z.eqb Z.ltb Z.compare]. repeat split.
  - rewrite length_map. destruct frame; simpl; [|rewrite length_rev];
      reflexivity.
  - rewrite !length_map. destruct frame; simpl;
      [|rewrite length_map, length_rev]; reflexivity.
  - rewrite !map_map. apply map_ext. intros row.
    now rewrite length_map, length_rev.
Qed.

(** X5: reversing the channel order twice gives the frame back. *)
Theorem reverse_channels_involutive (frame : Frame) :
  reverse_channels (reverse_channels frame) = frame.
Proof.
  unfold reverse_channels. rewrite map_map.
  rewrite <- (map_id frame) at 2. apply map_ext. intros row.
  rewrite map_map. rewrite <- (map_id row) at 2. apply map_ext.
  now intros [[c0 c1] c2].
Qed.

(** X6: channel reversal and mirroring commute: converting the mirrored
    frame gives the mirror image of the converted frame. *)
Theorem reverse_channels_flip_commute (frame : Frame) :
  reverse_channels (cv2_flip frame 1) = cv2_flip (reverse_channels frame) 1.
Proof.
  unfold reverse_channels, cv2_flip. cbn [Z.eqb Z.ltb Z.compare].
  rewrite !map_map. apply map_ext. intros row. apply map_rev.
Qed.

(** ** Drawing stages (lines 18-27 and 80-90) *)

Lemma chained_app (a b c : Frame) (t1 t2 : trace) :
  chained a t1 b -> chained b t2 c -> chained a (t1 ++ t2) c.
Proof.
  revert a. induction t1 as [|e t1 IH]; intros a; simpl.
  - now intros ->.
  - intros (Hc & mid & Hd & H1) H2. split; [exact Hc|].
    exists mid. split; [exact Hd|]. now apply IH.
Qed.

Lemma for_each_chained {A : Type} (body : A -> Frame -> M Frame) :
  (forall x s h s' t, body x s h = (Ok s', t) -> chained s t s') ->
  forall xs s h s' t,
    for_each xs body s h = (Ok s', t) -> chained s t s'.
Proof.
  intros Hb. induction xs as [|x xs IH]; intros s h s' t; simpl.
  - now intros [= <- <-].
  - intros E. apply bind_inv_ok in E as (s1 & t1 & t2 & E1 & E2 & ->).
    eapply chained_app; eauto.
Qed.

Lemma draw_box_inv (env : world) (box : FaceBox) (frame : Frame) h frame' t :
  draw_box env box frame h = (Ok frame', t) ->
  exists e,
    t = [e] /\ mark_of e = Some (box_outline (shape2 frame) box) /\
    canvas_of e = Some frame /\ drawn_of e = Some frame' /\
    (draws_in_place env -> same_shape frame frame').
Proof.
  unfold draw_box, box_outline. destruct (shape2 frame) as [hh ww].
  destruct (expand_box hh ww box) as [[[l t0] r] b]. intros E.
  apply perform_inv in E as [E ->].
  eexists. repeat split. intros Hip. symmetry in E.
  eapply in_place_rectangle; eauto.
Qed.

Lemma draw_boxes_inv (env : world) :
  draws_in_place env ->
  forall (face_locations : list FaceBox) (frame : Frame) (hist : trace)
         (frame' : Frame) (t : trace),
    draw_boxes env frame face_locations hist = (Ok frame', t) ->
    map mark_of t = map Some (map (box_outline (shape2 frame)) face_locations) /\
    length t = length face_locations /\
    chained frame t frame' /\
    same_shape frame frame'.
Proof.
  intros Hip. unfold draw_boxes.
  induction face_locations as [|box boxes IH]; intros frame hist frame' t;
    cbn [for_each].
  - intros [= <- <-]. repeat split.
  - intros E. apply bind_inv_ok in E as (f1 & t1 & t2 & E1 & E2 & ->).
    apply draw_box_inv in E1 as (e & -> & Hm & Hc & Hd & Hs).
    specialize (Hs Hip). apply IH in E2 as (Hm2 & Hl2 & Hch & Hs2).
    rewrite <- (same_shape_shape2 _ _ Hs) in Hm2.
    split; [|split; [|split]].
    + cbn [app map]. now rewrite Hm, Hm2.
    + cbn [app length]. now rewrite Hl2.
    + cbn [app chained]. split; [exact Hc|]. now exists f1.
    + unfold same_shape in *. congruence.
Qed.

(** X7: when [draw_boxes] returns it has drawn one rectangle per face
    location, in the detector's order, each the padded box for the
    frame's shape in colour (0,150,0) and thickness 2; the calls work on
    the frame in turn and, drawing being in place, the frame keeps its
    shape. *)
Theorem draw_boxes_one_rectangle_per_face (env : world)
        (face_locations : list FaceBox) (frame : Frame) (hist : trace)
        (frame' : Frame) (t : trace) :
  draws_in_place env ->
  draw_boxes env frame face_locations hist = (Ok frame', t) ->
  map mark_of t = map Some (map (box_outline (shape2 frame)) face_locations) /\
  length t = length face_locations /\
  chained frame t frame' /\
  same_shape frame frame'.
Proof. intros Hip. now apply draw_boxes_inv. Qed.

Lemma landmark_discs_length (lms : list LandmarkSet) :
  length (landmark_discs lms) = total_points lms.
Proof.
  unfold landmark_discs, total_points. rewrite length_flat_map.
  f_equal. apply map_ext. intros landmarks. rewrite length_flat_map.
  f_equal. apply map_ext. intros group. apply length_map.
Qed.

(** X8: when [draw_face_landmarks] returns it has made exactly one circle
    call per landmark point, set by set, group by group and point by
    point in their order, a point listed twice being drawn twice; the
    calls work on the image in turn and the image returned is the one the
    last call left. *)
Theorem draw_face_landmarks_in_order (env : world) (image : Frame)
        (face_landmarks_list : list LandmarkSet) (hist : trace)
        (image' : Frame) (t : trace) :
  draw_face_landmarks env image face_landmarks_list hist = (Ok image', t) ->
  map mark_of t = map Some (landmark_discs face_landmarks_list) /\
  length t = total_points face_landmarks_list /\
  chained image t image'.
Proof.
  intros E. pose proof (draw_face_landmarks_marks _ _ _ _ _ _ E) as Hm.
  split; [exact Hm|]. split.
  - rewrite <- landmark_discs_length, <- (length_map mark_of), Hm.
    apply length_map.
  - revert E. unfold draw_face_landmarks.
    apply for_each_chained. intros landmarks.
    apply for_each_chained. intros [feature points].
    apply for_each_chained. intros point s h s' t0 E.
    apply perform_inv in E as [E ->]. cbn. split; [reflexivity|].
    now exists s'.
Qed.

(** ** The legend and the composite (lines 29-49) *)

Lemma legend_loop_raise (env : world) (entries : dict Color) :
  forall st h e t,
    for_each entries (legend_entry env) st h = (Raise e, t) ->
    exists pre ev,
      t = pre ++ [ev] /\ mark_of ev <> None /\ raised_of ev = Some e.
Proof.
  induction entries as [|[feature color] entries IH]; intros [panel y] h e t;
    cbn [for_each].
  - discriminate.
  - unfold bind at 1.
    destruct (legend_entry env (feature, color) (panel, y) h)
      as [[st1|e1|] t1] eqn:E1.
    + destruct (for_each entries (legend_entry env) st1 (h ++ t1))
        as [r2 t2] eqn:E2.
      intros [= -> <-]. apply IH in E2 as (pre & ev & -> & Hm & Hr).
      exists (t1 ++ pre), ev. now rewrite app_assoc.
    + intros [= <- <-]. revert E1. unfold legend_entry, bind, perform, ret.
      destruct (env Frame h (Circle panel (20, y - 5) 6 color (-1)))
        as [p1| |] eqn:A1.
      * destruct (env Frame
                    (h ++ [Ev (Circle panel (20, y - 5) 6 color (-1)) (Ok p1)])
                    (PutText p1 feature (40, y) FONT_HERSHEY_SIMPLEX (1 # 2)%Q
                             color 1)) as [p2| |] eqn:A2;
          [intros [=] | intros [= <- <-] | intros [=]].
        eexists [_], _. split; [reflexivity|]. split; [discriminate|].
        reflexivity.
      * intros [= <- <-]. exists [].
        eexists. split; [reflexivity|]. split; [discriminate|]. reflexivity.
      * intros [=].
    + intros [=].
Qed.

(** X9: [np.hstack] never fails in [add_legend_panel]: drawing being in
    place, the panel keeps the frame's height, so an exception out of
    [add_legend_panel] is one that a drawing call on the legend raised,
    and that call is the last thing done. *)
Theorem add_legend_panel_raises_only_from_drawing (env : world)
        (frame : Frame) (hist : trace) (e : exn) (t : trace) :
  draws_in_place env ->
  add_legend_panel env frame hist = (Raise e, t) ->
  build_legend env frame hist = (Raise e, t) /\
  exists pre ev,
    t = pre ++ [ev] /\ mark_of ev <> None /\ raised_of ev = Some e.
Proof.
  intros Hip E.
  assert (Eb : build_legend env frame hist = (Raise e, t)).
  { destruct (build_legend env frame hist) as [[legend|e1|] t1] eqn:Eb.
    - destruct (add_legend_panel_run env frame hist legend t1 Hip Eb)
        as (_ & _ & Ea). congruence.
    - unfold add_legend_panel, bind in E. rewrite Eb in E. exact E.
    - unfold add_legend_panel, bind in E. rewrite Eb in E. discriminate. }
  split; [exact Eb|].
  unfold build_legend, bind in Eb.
  destruct (for_each FEATURE_COLORS (legend_entry env) _ hist)
    as [[st|e1|] t1] eqn:El; try discriminate.
  injection Eb as <- <-. now apply legend_loop_raise in El.
Qed.

(** X10: the legend's circles lie entirely on the panel exactly when the
    frame is at least 272 rows high; on a lower frame the calls are made
    all the same, the last rows falling below the panel. *)
Theorem legend_discs_fit (env : world) (frame : Frame) (hist : trace)
        (legend : Frame) (t : trace) :
  build_legend env frame hist = (Ok legend, t) ->
  Forall (fun e => forall m, mark_of e = Some m ->
                   disc_on_panel (Z.of_nat (length frame)) 200 m) t
  <-> (272 <= length frame)%nat.
Proof.
  intros E. apply build_legend_inv in E as [y E].
  pose proof (legend_loop_marks _ _ _ _ _ _ _ E) as Hm.
  rewrite <- (Forall_map mark_of
                (fun o => forall m, o = Some m ->
                          disc_on_panel (Z.of_nat (length frame)) 200 m)).
  rewrite Hm, Forall_map. unfold FEATURE_COLORS. cbn [legend_marks].
  split.
  - intros H. rewrite Forall_forall in H.
    specialize (H (Disc (20, 30 + 30 + 30 + 30 + 30 + 30 + 30 + 30 + 30 - 5)
                        6 (0, 128, 128) (-1))).
    cbn [In] in H. specialize (H ltac:(tauto) _ eq_refl).
    cbn [disc_on_panel] in H. lia.
  - intros H.
    repeat (constructor; [intros m [= <-]; cbn [disc_on_panel]; lia|]).
    constructor.
Qed.

(** ** The colour table (lines 6-16 and 25) *)

(** X11: the colour of a landmark identifies its feature: two feature
    names get the same colour from [FEATURE_COLORS.get] only when they are
    the same name or both are missing from the table (and get the
    gray). *)
Theorem colour_identifies_feature (feature1 feature2 : string) :
  dict_get FEATURE_COLORS feature1 (200, 200, 200)
  = dict_get FEATURE_COLORS feature2 (200, 200, 200) ->
  feature1 = feature2 \/
  (dict_mem FEATURE_COLORS feature1 = false /\
   dict_mem FEATURE_COLORS feature2 = false).
Proof.
  unfold FEATURE_COLORS, dict_mem. cbn [dict_get existsb fst].
  repeat match goal with
         | |- context [String.eqb feature1 ?k] =>
             destruct (String.eqb_spec feature1 k); [subst feature1|]
         end;
    repeat match goal with
           | |- context [String.eqb feature2 ?k] =>
               destruct (String.eqb_spec feature2 k); [subst feature2|]
           end;
    cbn [orb]; intros H;
    first [ left; reflexivity | discriminate H | right; split; reflexivity ].
Qed.

(** ** Turns of the loop (lines 63-103) *)

Lemma perform_ok (env : world) {T : Type} (c : call T) (h : trace) (a : T) :
  env T h c = Ok a -> perform env c h = (Ok a, [Ev c (Ok a)]).
Proof. intros E. unfold perform. now rewrite E. Qed.

Lemma loop_body_ok_inv (env : world) (h : trace) (c : ctrl) (t : trace) :
  loop_body env h = (Ok c, t) ->
  (c = Next /\ t = failed_capture (Ok tt)) \/
  (exists pre key,
      t = pre ++ [Ev (WaitKey 1) (Ok key)] /\
      c = if 0 <? key then Break else Next).
Proof.
  unfold loop_body. intros E.
  apply bind_inv_ok in E as (captured & tr & t' & Er & E & ->).
  apply perform_inv in Er as [Er ->].
  destruct captured as [frame|].
  - right.
    apply bind_inv_ok in E as (locs & t1 & t1' & E1 & E & ->).
    apply bind_inv_ok in E as (lms & t2 & t2' & E2 & E & ->).
    apply bind_inv_ok in E as (f1 & t3 & t3' & E3 & E & ->).
    apply bind_inv_ok in E as (f2 & t4 & t4' & E4 & E & ->).
    apply bind_inv_ok in E as (out & t5 & t5' & E5 & E & ->).
    apply bind_inv_ok in E as (u & t6 & t6' & E6 & E & ->).
    apply bind_inv_ok in E as (key & t7 & t7' & E7 & E & ->).
    apply perform_inv in E7 as [E7 ->].
    exists ([Ev Read (Ok (Some frame))] ++ t1 ++ t2 ++ t3 ++ t4 ++ t5 ++ t6),
      key.
    destruct (0 <? key); injection E as <- <-;
      (split; [now rewrite app_nil_r, <- !app_assoc | reflexivity]).
  - left.
    apply bind_inv_ok in E as ([] & t1 & t1' & E1 & E & ->).
    apply perform_inv in E1 as [E1 ->]. injection E as <- <-.
    split; reflexivity.
Qed.

(** X12: a turn of the loop ends the loop only on a key press: it breaks
    just when [cv2.waitKey(1)], the last call of the turn, returned a
    positive code, while 0 or a negative code lets the loop go on; and
    the loop as a whole returns normally only right after such a key
    press. *)
Theorem loop_ends_only_by_key (env : world) (h : trace) :
  (forall t, loop_body env h = (Ok Break, t) ->
     exists pre key, t = pre ++ [Ev (WaitKey 1) (Ok key)] /\ 0 < key) /\
  (forall t, loop_body env h = (Ok Next, t) ->
     t = failed_capture (Ok tt) \/
     exists pre key, t = pre ++ [Ev (WaitKey 1) (Ok key)] /\ key <= 0) /\
  (forall fuel t, while_true fuel (loop_body env) h = (Ok tt, t) ->
     exists pre key, t = pre ++ [Ev (WaitKey 1) (Ok key)] /\ 0 < key).
Proof.
  split; [|split].
  - intros t E. apply loop_body_ok_inv in E as [[E _]|(pre & key & -> & E)];
      [discriminate|].
    exists pre, key. split; [reflexivity|].
    destruct (Z.ltb_spec 0 key); [assumption | discriminate].
  - intros t E. apply loop_body_ok_inv in E as [[_ E]|(pre & key & -> & E)];
      [now left | right].
    exists pre, key. split; [reflexivity|].
    destruct (Z.ltb_spec 0 key); [discriminate | assumption].
  - intros fuel. revert h.
    induction fuel as [|fuel IH]; intros h t; cbn [while_true];
      [intros [=]|].
    intros E. apply bind_inv_ok in E as (c & t1 & t2 & E1 & E2 & ->).
    destruct c.
    + apply IH in E2 as (pre & key & -> & Hk).
      exists (t1 ++ pre), key. now rewrite app_assoc.
    + injection E2 as <-.
      apply loop_body_ok_inv in E1 as [[E _]|(pre & key & -> & E)];
        [discriminate|].
      exists pre, key. rewrite app_nil_r. split; [reflexivity|].
      destruct (Z.ltb_spec 0 key); [assumption | discriminate].
Qed.

(** X13: if releasing the camera raises, the windows are not closed:
    [main] ends with the exception of [release()], which replaces the one
    the loop may have raised, and [destroyAllWindows()] is never
    called. *)
Theorem release_failure_skips_window_cleanup (env : world) (fuel : nat)
        (r_loop : outcome unit) (loop_trace : trace) (e : exn) :
  env _ [] (VideoCapture 0) = Ok tt ->
  env _ [Ev (VideoCapture 0) (Ok tt)] IsOpened = Ok true ->
  while_true fuel (loop_body env)
             [Ev (VideoCapture 0) (Ok tt); Ev IsOpened (Ok true)]
  = (r_loop, loop_trace) ->
  r_loop <> Running ->
  env _ ([Ev (VideoCapture 0) (Ok tt); Ev IsOpened (Ok true)] ++ loop_trace)
      Release = Raise e ->
  main env fuel [] =
    (Raise e,
     [Ev (VideoCapture 0) (Ok tt); Ev IsOpened (Ok true)]
       ++ loop_trace ++ [Ev Release (Raise e)]).
Proof.
  intros Hv Ho El Hr He. rewrite (main_opened env fuel Hv Ho).
  unfold try_finally. rewrite El.
  unfold cleanup, bind, perform. rewrite He.
  destruct r_loop; try contradiction; reflexivity.
Qed.

Ltac emits_stages :=
  repeat first
    [ emits_step
    | match goal with
      | |- emits _ (match ?x with _ => _ end) => destruct x
      | |- emits _ ((match ?x with _ => _ end) _) => destruct x
      end
    | progress unfold draw_boxes, draw_box, draw_face_landmarks,
        add_legend_panel, build_legend, legend_entry ].

(** X14: every turn of the loop reads the camera exactly once, first of
    all: whatever happens in the turn, its first call is the read and no
    later call of the turn is a read, so a failed capture is not retried
    within the turn. *)
Theorem one_read_per_turn (env : world) (h : trace) :
  exists rest,
    snd (loop_body env h) = Ev Read (env _ h Read) :: rest /\
    Forall (fun e => is_read e = false) rest.
Proof.
  unfold loop_body. unfold bind at 1. unfold perform at 1.
  destruct (env _ h Read) as [captured| |] eqn:Er.
  - match goal with
    | |- context [let (r, t2) := ?k ?hh in _] =>
        assert (H : emits (fun e => is_read e = false) k);
        [|specialize (H hh); destruct (k hh) as [r t2]]
    end.
    + destruct captured as [frame|]; emits_stages.
    + exists t2. split; [reflexivity | exact H].
  - exists []. split; [reflexivity | constructor].
  - exists []. split; [reflexivity | constructor].
Qed.

Lemma rectangle_returns (env : world) h img pt1 pt2 color thickness :
  draws_return env ->
  exists img', env Frame h (Rectangle img pt1 pt2 color thickness) = Ok img'.
Proof.
  intros Hr.
  destruct (Hr Frame h (Rectangle img pt1 pt2 color thickness))
    as [img' H]; [discriminate|]. simpl in H.
  destruct (env Frame h _) as [a| |]; try discriminate. now exists a.
Qed.

Lemma draw_boxes_returns (env : world) frame boxes hist :
  draws_return env ->
  exists frame' t, draw_boxes env frame boxes hist = (Ok frame', t).
Proof.
  intros Hr. unfold draw_boxes. apply for_each_returns.
  intros box img h0. unfold draw_box.
  destruct (shape2 img) as [hh ww].
  destruct (expand_box hh ww box) as [[[l t] r] b].
  destruct (rectangle_returns env h0 img (l, t) (r, b) (0, 150, 0) 2 Hr)
    as [img' E].
  eexists _, _. apply perform_ok. exact E.
Qed.

Lemma for_each_same_shape {A : Type} (body : A -> Frame -> M Frame) :
  (forall x s h s' t, body x s h = (Ok s', t) -> same_shape s s') ->
  forall xs s h s' t,
    for_each xs body s h = (Ok s', t) -> same_shape s s'.
Proof.
  intros Hb. induction xs as [|x xs IH]; intros s h s' t; simpl.
  - now intros [= <- _].
  - intros E. apply bind_inv_ok in E as (s1 & t1 & t2 & E1 & E2 & ->).
    apply Hb in E1. apply IH in E2. unfold same_shape in *. congruence.
Qed.

Lemma draw_face_landmarks_shape (env : world) image lms hist image' t :
  draws_in_place env ->
  draw_face_landmarks env image lms hist = (Ok image', t) ->
  same_shape image image'.
Proof.
  intros Hip. unfold draw_face_landmarks.
  apply for_each_same_shape. intros landmarks.
  apply for_each_same_shape. intros [feature points].
  apply for_each_same_shape. intros point s h s' t0 E.
  apply perform_inv in E as [E _]. symmetry in E.
  eapply in_place_circle; eauto.
Qed.

Lemma has_shape_same_shape (h w : nat) (a b : Frame) :
  has_shape h w a -> same_shape a b -> has_shape h w b.
Proof.
  intros [L F] E. apply has_shape_of_lengths. rewrite <- E.
  subst h. clear E. induction F as [|row a Hrow F IH]; simpl;
    [reflexivity | now rewrite Hrow, IH].
Qed.

Lemma flip_same_shape (frame : Frame) : same_shape frame (cv2_flip frame 1).
Proof.
  unfold same_shape, cv2_flip. cbn [Z.eqb Z.ltb Z.compare].
  rewrite map_map. apply map_ext. intros row. now rewrite length_rev.
Qed.

Lemma draw_face_landmarks_chained (env : world) image lms hist image' t :
  draw_face_landmarks env image lms hist = (Ok image', t) ->
  chained image t image'.
Proof.
  unfold draw_face_landmarks.
  apply for_each_chained. intros landmarks.
  apply for_each_chained. intros [feature points].
  apply for_each_chained. intros point s h s' t0 E.
  apply perform_inv in E as [E ->]. cbn. split; [reflexivity|].
  now exists s'.
Qed.

(** X15: a turn in which the capture succeeds and every call returns does
    its work in this order: the read, [face_locations] and then
    [face_landmarks] on the converted mirrored frame, the calls of the box
    stage on the mirrored frame (one rectangle per face), the calls of the
    landmark stage on the frame the box stage left (one circle per
    point), the 18 legend calls on a fresh panel, then one [imshow] of
    that panel joined to the frame the landmark stage left, and last
    [waitKey(1)], whose code alone decides between going on and
    breaking.  For an [h] x [w] capture the frame drawn on keeps that
    shape and the image shown is [h] x [200 + w], its first 200 columns
    the panel and the others the drawn frame. *)
Theorem successful_turn (env : world) (h : trace) (frame : Frame)
        (hh ww : nat) (face_locations : list FaceBox)
        (face_landmarks_list : list LandmarkSet) :
  draws_in_place env ->
  draws_return env ->
  (forall hist mat, env unit hist (Imshow window_title mat) = Ok tt) ->
  (forall hist, exists key, env Z hist (WaitKey 1) = Ok key) ->
  has_shape hh ww frame ->
  let mirrored := cv2_flip frame 1 in
  let rgb_frame := reverse_channels mirrored in
  let h1 := h ++ [Ev Read (Ok (Some frame))] in
  let h2 := h1 ++ [Ev (FaceLocations rgb_frame) (Ok face_locations)] in
  let h3 := h2 ++ [Ev (FaceLandmarks rgb_frame) (Ok face_landmarks_list)] in
  env _ h Read = Ok (Some frame) ->
  env _ h1 (FaceLocations rgb_frame) = Ok face_locations ->
  env _ h2 (FaceLandmarks rgb_frame) = Ok face_landmarks_list ->
  exists boxed boxes_trace drawn landmarks_trace legend legend_trace key,
    let shown := hstack_rows legend drawn in
    draw_boxes env mirrored face_locations h3 = (Ok boxed, boxes_trace) /\
    draw_face_landmarks env boxed face_landmarks_list (h3 ++ boxes_trace)
    = (Ok drawn, landmarks_trace) /\
    build_legend env drawn ((h3 ++ boxes_trace) ++ landmarks_trace)
    = (Ok legend, legend_trace) /\
    np_hstack legend drawn = Some shown /\
    loop_body env h
    = (Ok (if 0 <? key then Break else Next),
       [Ev Read (Ok (Some frame));
        Ev (FaceLocations rgb_frame) (Ok face_locations);
        Ev (FaceLandmarks rgb_frame) (Ok face_landmarks_list)]
         ++ boxes_trace ++ landmarks_trace ++ legend_trace
         ++ [Ev (Imshow window_title shown) (Ok tt);
             Ev (WaitKey 1) (Ok key)]) /\
    map mark_of boxes_trace
    = map Some (map (box_outline (shape2 mirrored)) face_locations) /\
    chained mirrored boxes_trace boxed /\
    map mark_of landmarks_trace
    = map Some (landmark_discs face_landmarks_list) /\
    chained boxed landmarks_trace drawn /\
    map mark_of legend_trace = map Some (legend_marks FEATURE_COLORS 30) /\
    chained (repeat (repeat (30, 30, 30) 200%nat) hh) legend_trace legend /\
    has_shape hh ww drawn /\
    has_shape hh 200 legend /\
    has_shape hh (200 + ww) shown /\
    map (firstn 200) shown = legend /\
    map (skipn 200) shown = drawn.
Proof.
  intros Hip Hret Him Hkey Hf mirrored rgb_frame h1 h2 h3 Er El Em.
  pose proof (perform_ok env Read h _ Er) as E0.
  pose proof (perform_ok env (FaceLocations rgb_frame) h1 _ El) as E1.
  pose proof (perform_ok env (FaceLandmarks rgb_frame) h2 _ Em) as E2.
  destruct (draw_boxes_returns env mirrored face_locations h3 Hret)
    as (f1 & tb & Eb).
  destruct (draw_face_landmarks_returns env f1 face_landmarks_list
              (h3 ++ tb) Hret) as (f2 & tl & Elm).
  destruct (build_legend_returns env f2 ((h3 ++ tb) ++ tl) Hret)
    as (legend & tg & Eg).
  destruct (add_legend_panel_run env f2 _ legend tg Hip Eg) as (Hl & Hh & Ea).
  pose proof (perform_ok env (Imshow window_title (hstack_rows legend f2))
                (((h3 ++ tb) ++ tl) ++ tg) tt (Him _ _)) as Ei.
  destruct (Hkey ((((h3 ++ tb) ++ tl) ++ tg)
                    ++ [Ev (Imshow window_title (hstack_rows legend f2))
                           (Ok tt)]))
    as [key Ek].
  apply perform_ok in Ek.
  destruct (draw_boxes_inv env Hip _ _ _ _ _ Eb) as (Mb & _ & Cb & Sb).
  pose proof (draw_face_landmarks_marks _ _ _ _ _ _ Elm) as Ml.
  pose proof (draw_face_landmarks_chained _ _ _ _ _ _ Elm) as Cl.
  pose proof (draw_face_landmarks_shape _ _ _ _ _ _ Hip Elm) as Sl.
  assert (Hf2 : has_shape hh ww f2).
  { apply (has_shape_same_shape hh ww f1); [|exact Sl].
    apply (has_shape_same_shape hh ww mirrored); [|exact Sb].
    apply (has_shape_same_shape hh ww frame); [exact Hf|].
    apply flip_same_shape. }
  assert (Lf2 : length f2 = hh) by apply Hf2.
  assert (Hl' : has_shape hh 200 legend) by (rewrite <- Lf2; exact Hl).
  assert (Mg : map mark_of tg = map Some (legend_marks FEATURE_COLORS 30)
               /\ chained (repeat (repeat (30, 30, 30) 200%nat) hh) tg legend).
  { pose proof Eg as Eg'. apply build_legend_inv in Eg' as [y Eg'].
    split; [exact (legend_loop_marks _ _ _ _ _ _ _ Eg')|].
    rewrite <- Lf2. exact (legend_loop_chained env _ _ _ _ _ _ _ Eg'). }
  destruct Mg as [Mg Cg].
  destruct (hstack_rows_shape 200 ww legend f2 hh Hl' Hf2) as (Hc & H1 & H2).
  exists f1, tb, f2, tl, legend, tg, key. cbv zeta.
  repeat match goal with |- _ /\ _ => split end; try assumption.
  unfold loop_body. rewrite (bind_ok _ _ _ _ _ E0). cbv beta iota zeta.
  fold mirrored rgb_frame h1.
  rewrite (bind_ok _ _ _ _ _ E1). fold h2.
  rewrite (bind_ok _ _ _ _ _ E2). fold h3.
  rewrite (bind_ok _ _ _ _ _ Eb).
  rewrite (bind_ok _ _ _ _ _ Elm).
  rewrite (bind_ok _ _ _ _ _ Ea).
  rewrite (bind_ok _ _ _ _ _ Ei).
  rewrite (bind_ok _ _ _ _ _ Ek).
  destruct (0 <? key); cbn [fst snd ret]; rewrite app_nil_r; reflexivity.
Qed.

(** X16: the legend is drawn on one panel: the first call draws on the
    uniform (30,30,30) panel of the frame's height and 200 columns, every
    later call on what the call before it returned, and the panel handed
    back is the one the last label left. *)
Theorem legend_drawn_on_one_panel (env : world) (frame : Frame)
        (hist : trace) (legend : Frame) (t : trace) :
  build_legend env frame hist = (Ok legend, t) ->
  chained (repeat (repeat (30, 30, 30) 200%nat) (length frame)) t legend.
Proof.
  intros E. apply build_legend_inv in E as [y E]. revert E.
  unfold legend_width. generalize (repeat (repeat (30, 30, 30) 200%nat)
                                          (length frame)).
  generalize 30 at 1. revert hist legend y t.
  induction FEATURE_COLORS as [|entry entries IH];
    intros hist legend y t y0 panel; cbn [for_each].
  - now intros [= <- _ <-].
  - intros E. apply bind_inv_ok in E as ([p y1] & t1 & t2 & E1 & E2 & ->).
    apply (legend_entry_inv env entry) in E1
      as (p1 & p2 & e1 & e2 & [= -> ->] & -> & -> & -> & _).
    apply IH in E2. cbn [app chained canvas_of drawn_of drawn_of_call].
    split; [reflexivity|]. exists p1. split; [reflexivity|].
    split; [reflexivity|]. exists p2. split; [reflexivity | exact E2].
Qed.

(** ** Start-up and shutdown (lines 56-60 and 105-108) *)

(** X17: opening the camera is outside the [try]: if [VideoCapture(0)] or
    [isOpened()] raises, [main] ends with that exception at once, without
    reading, releasing or closing anything. *)
Theorem startup_errors_bypass_cleanup (env : world) (fuel : nat) (e : exn) :
  (env _ [] (VideoCapture 0) = Raise e ->
   main env fuel [] = (Raise e, [Ev (VideoCapture 0) (Raise e)])) /\
  (env _ [] (VideoCapture 0) = Ok tt ->
   env _ [Ev (VideoCapture 0) (Ok tt)] IsOpened = Raise e ->
   main env fuel [] =
     (Raise e, [Ev (VideoCapture 0) (Ok tt); Ev IsOpened (Raise e)])).
Proof.
  split.
  - intros Hv. unfold main, bind, perform. now rewrite Hv.
  - intros Hv Ho. unfold main, bind, perform. rewrite Hv. cbn [app].
    now rewrite Ho.
Qed.

(** ** Instances of the further properties *)

Lemma drawn_of_raise {T : Type} (c : call T) (e : exn) :
  drawn_of (Ev c (Raise e)) = None.
Proof. destruct c; reflexivity. Qed.

Lemma canvas_of_answer {T : Type} (c : call T) (r r' : outcome T) :
  canvas_of (Ev c r) = canvas_of (Ev c r').
Proof. destruct c; reflexivity. Qed.

Lemma breaks_on_draws_in_place (broken : event -> bool) (w : world) :
  draws_in_place w -> draws_in_place (breaks_on broken w).
Proof.
  intros Hw T h c img img' Hc Hd. unfold breaks_on in Hc, Hd.
  destruct (broken (Ev c (w T h c))).
  - rewrite drawn_of_raise in Hd. discriminate.
  - now apply (Hw T h c).
Qed.

Lemma expand_box_contains_box_witness :
  box_within 4 6 (1, 4, 3, 2) /\
  let '(l, t, r, b) := expand_box 4 6 (1, 4, 3, 2) in
  (l <= 2 /\ 4 <= r /\ t <= 1 /\ 3 <= b) /\
  (2 - l <= 20 /\ r - 4 <= 20 /\ 1 - t <= 20 /\ b - 3 <= 20) /\
  (20 <= 2 -> l = 2 - 20) /\
  (4 + 20 <= 6 -> r = 4 + 20) /\
  (20 <= 1 -> t = 1 - 20) /\
  (3 + 20 <= 4 -> b = 3 + 20).
Proof.
  split; [unfold box_within; lia|].
  apply (expand_box_contains_box 4 6 1 4 3 2). unfold box_within. lia.
Defined.

Lemma expand_box_outside_inverts_witness :
  let '(l, t, r, b) := expand_box 480 640 (10, 760, 100, 700) in
  r < l \/ b < t.
Proof.
  apply (expand_box_outside_inverts 480 640 10 760 100 700). left. lia.
Defined.

Lemma draw_boxes_one_rectangle_per_face_witness :
  let t := snd (draw_boxes (sample_world one_face) (black 4 6)
                           [(1, 4, 3, 2); (0, 6, 4, 0)] []) in
  map mark_of t
  = map Some (map (box_outline (shape2 (black 4 6)))
                  [(1, 4, 3, 2); (0, 6, 4, 0)]) /\
  length t = 2%nat.
Proof.
  intros t.
  destruct (draw_boxes_one_rectangle_per_face (sample_world one_face)
              [(1, 4, 3, 2); (0, 6, 4, 0)] (black 4 6) []
              (paint (on_outline (0, 0) (6, 4)) (0, 150, 0)
                 (paint (on_outline (0, 0) (6, 4)) (0, 150, 0) (black 4 6)))
              t (sample_world_draws_in_place one_face))
    as (Hm & Hl & _); [vm_compute; reflexivity|].
  split; [exact Hm | exact Hl].
Defined.

Lemma draw_face_landmarks_in_order_witness :
  let t := snd (draw_face_landmarks (sample_world one_face) (black 4 6)
                                    (landmarks one_face) []) in
  map mark_of t = map Some (landmark_discs (landmarks one_face)) /\
  length t = 3%nat.
Proof.
  intros t.
  destruct (draw_face_landmarks_in_order (sample_world one_face) (black 4 6)
              (landmarks one_face) []
              (returned_or
                 (fst (draw_face_landmarks (sample_world one_face) (black 4 6)
                                           (landmarks one_face) [])) [])
              t) as (Hm & Hl & _); [vm_compute; reflexivity|].
  split; [exact Hm | exact Hl].
Defined.

Lemma add_legend_panel_raises_only_from_drawing_witness :
  let w := breaks_on is_label (sample_world empty_room) in
  build_legend w (black 4 6) []
  = (Raise (PyError "cv2.error"), snd (add_legend_panel w (black 4 6) [])) /\
  exists pre ev,
    snd (add_legend_panel w (black 4 6) []) = pre ++ [ev] /\
    mark_of ev <> None /\ raised_of ev = Some (PyError "cv2.error").
Proof.
  intros w.
  apply (add_legend_panel_raises_only_from_drawing w (black 4 6) []
           (PyError "cv2.error") (snd (add_legend_panel w (black 4 6) []))).
  - apply breaks_on_draws_in_place, sample_world_draws_in_place.
  - vm_compute. reflexivity.
Defined.

Lemma legend_discs_fit_witness :
  Forall (fun e => forall m, mark_of e = Some m ->
                   disc_on_panel (Z.of_nat (length (black 4 6))) 200 m)
         (snd (build_legend (sample_world empty_room) (black 4 6) []))
  <-> (272 <= length (black 4 6))%nat.
Proof.
  eapply (legend_discs_fit (sample_world empty_room) (black 4 6) [] _ _).
  vm_compute. reflexivity.
Defined.

Lemma colour_identifies_feature_witness :
  "left_eye" = "left_eye" \/
  (dict_mem FEATURE_COLORS "left_eye" = false /\
   dict_mem FEATURE_COLORS "left_eye" = false).
Proof.
  apply (colour_identifies_feature "left_eye" "left_eye"). reflexivity.
Defined.

Lemma release_failure_skips_window_cleanup_witness :
  let w := breaks_on is_release (sample_world one_face) in
  let h0 := [Ev (VideoCapture 0) (Ok tt); Ev IsOpened (Ok true)] in
  main w 5 [] =
    (Raise (PyError "cv2.error"),
     h0 ++ snd (while_true 5 (loop_body w) h0)
        ++ [Ev Release (Raise (PyError "cv2.error"))]).
Proof.
  intros w h0.
  apply (release_failure_skips_window_cleanup w 5 (Ok tt)
           (snd (while_true 5 (loop_body w) h0)) (PyError "cv2.error")).
  - reflexivity.
  - reflexivity.
  - vm_compute. reflexivity.
  - discriminate.
  - vm_compute. reflexivity.
Defined.

Lemma successful_turn_witness :
  exists drawn legend key pre,
    loop_body (sample_world one_face) []
    = (Ok (if 0 <? key then Break else Next),
       pre ++ [Ev (Imshow window_title (hstack_rows legend drawn)) (Ok tt);
               Ev (WaitKey 1) (Ok key)]) /\
    has_shape 4 (200 + 6) (hstack_rows legend drawn) /\
    map (skipn 200) (hstack_rows legend drawn) = drawn.
Proof.
  assert (Hs0 : has_shape 4 6 (black 4 6))
    by (split; [reflexivity | repeat constructor]).
  destruct (successful_turn (sample_world one_face) [] (black 4 6) 4 6
              (faces one_face) (landmarks one_face)
              (sample_world_draws_in_place one_face)
              (sample_world_draws_return one_face)
              (fun _ _ => eq_refl)
              (fun hist => ex_intro _ _ eq_refl)
              Hs0 eq_refl eq_refl eq_refl)
    as (boxed & tb & drawn & tl & legend & tg & key & H).
  cbv zeta in H.
  destruct H as (_ & _ & _ & _ & E & _ & _ & _ & _ & _ & _ & _ & _ & Hs & _ & Hk).
  exists drawn, legend, key,
    ([Ev Read (Ok (Some (black 4 6)));
      Ev (FaceLocations (reverse_channels (cv2_flip (black 4 6) 1)))
         (Ok (faces one_face));
      Ev (FaceLandmarks (reverse_channels (cv2_flip (black 4 6) 1)))
         (Ok (landmarks one_face))] ++ tb ++ tl ++ tg).
  split; [|split; [exact Hs | exact Hk]].
  rewrite E. now rewrite <- !app_assoc.
Defined.

Lemma legend_drawn_on_one_panel_witness :
  chained (repeat (repeat (30, 30, 30) 200%nat) (length (black 4 6)))
          (snd (build_legend (sample_world empty_room) (black 4 6) []))
          (returned_or
             (fst (build_legend (sample_world empty_room) (black 4 6) [])) []).
Proof.
  apply (legend_drawn_on_one_panel (sample_world empty_room) (black 4 6) []).
  vm_compute. reflexivity.
Defined.

Lemma startup_errors_bypass_cleanup_witness :
  main (breaks_on is_video_capture (sample_world one_face)) 5 [] =
    (Raise (PyError "cv2.error"),
     [Ev (VideoCapture 0) (Raise (PyError "cv2.error"))]).
Proof.
  apply (startup_errors_bypass_cleanup
           (breaks_on is_video_capture (sample_world one_face)) 5
           (PyError "cv2.error")).
  reflexivity.
Defined.
